(** * Debt Decision Lab: the financial engine of [app.py]

    A shallow embedding of the numeric core of the Streamlit script
    [src/app.py]: the four helper functions ([calculate_emi],
    [remaining_balance], [future_value_monthly_sip], [npv_stream]) and
    the computations of the three tabs (prepayment impact, prepay versus
    invest, buy versus rent with its two sweeps).

    Modelling choices.
    - Python numbers are exact rationals ([Q]), kept in lowest terms by
      [Qred] after every operation so that the definitions evaluate.
      Rounding and overflow of binary floating point are outside the
      model; statements about values are up to [Qeq].
    - Integer quantities of the script (years, month counts, the loop
      counter) are [Z].
    - A Python exception is a value of [exn]; code that can raise lives
      in the error monad [result].  True division raises
      [ZeroDivisionError] on a zero divisor, [**] raises it on a zero
      base with a negative exponent, and [math.log] raises [ValueError]
      outside its domain.
    - [math.log] itself is a parameter of the prepayment section: only
      its domain check is fixed by the model. *)

From Stdlib Require Import QArith Qreduction Qround Qpower ZArith List Bool Lia Lqa.
Import ListNotations.

Local Open Scope Q_scope.

(** ** Exceptions and the error monad *)

Inductive exn : Type :=
| ZeroDivisionError
| ValueError.

Inductive result (A : Type) : Type :=
| Ok (a : A)
| Raise (e : exn).

Arguments Ok {A} a.
Arguments Raise {A} e.

Definition bind {A B : Type} (c : result A) (k : A -> result B) : result B :=
  match c with
  | Ok a => k a
  | Raise e => Raise e
  end.

Notation "x <- c ;; k" := (bind c (fun x => k))
  (at level 61, c at next level, right associativity).

Notation "' pat <- c ;; k" :=
  (bind c (fun x => match x with pat => k end))
  (at level 61, pat pattern, c at next level, right associativity).

Definition raises {A : Type} (c : result A) : Prop := exists e, c = Raise e.

Definition returns {A : Type} (c : result A) : Prop := exists a, c = Ok a.

Fixpoint mapM {A B : Type} (f : A -> result B) (l : list A) : result (list B) :=
  match l with
  | [] => Ok []
  | x :: xs => y <- f x ;; ys <- mapM f xs ;; Ok (y :: ys)
  end.

(** ** Python arithmetic on exact rationals *)

Module Py.

Definition add (x y : Q) : Q := Qred (x + y).
Definition sub (x y : Q) : Q := Qred (x - y).
Definition mul (x y : Q) : Q := Qred (x * y).

(** [x / y] *)
Definition div (x y : Q) : result Q :=
  if Qeq_bool y 0 then Raise ZeroDivisionError else Ok (Qred (x / y)).

(** [x / c] for a literal [c] that is not zero: cannot raise. *)
Definition div_lit (x c : Q) : Q := Qred (x / c).

(** [x ** n] for an integer exponent. *)
Definition pow (x : Q) (n : Z) : result Q :=
  if Qeq_bool x 0 && (n <? 0)%Z then Raise ZeroDivisionError
  else Ok (Qred (x ^ n)).

Definition eqb (x y : Q) : bool := Qeq_bool x y.

(** [x > y] *)
Definition gtb (x y : Q) : bool :=
  match x ?= y with Gt => true | _ => false end.

(** [x < y] *)
Definition ltb (x y : Q) : bool := gtb y x.

(** [int(math.ceil(x))] *)
Definition ceil (x : Q) : Z := Qceiling x.

Definition of_int (n : Z) : Q := inject_Z n.

End Py.

Infix "+!" := Py.add (at level 50, left associativity).
Infix "-!" := Py.sub (at level 50, left associativity).
Infix "*!" := Py.mul (at level 40, left associativity).

(** ** FUNCTIONS *)

(** [calculate_emi(principal, annual_rate, years)] returns [(emi, n, r)]. *)
Definition calculate_emi (principal annual_rate : Q) (years : Z)
  : result (Q * Z * Q) :=
  let r := Py.div_lit annual_rate (Py.of_int (12 * 100)) in
  let n := (years * 12)%Z in
  if Py.eqb r 0 then
    emi <- Py.div principal (Py.of_int n) ;;
    Ok (emi, n, r)
  else
    p1 <- Py.pow (1 +! r) n ;;
    p2 <- Py.pow (1 +! r) n ;;
    emi <- Py.div (principal *! r *! p1) (p2 -! 1) ;;
    Ok (emi, n, r).

(** The inputs on which a divisor of [calculate_emi] vanishes. *)
Definition emi_undefined (rate : Q) (years : Z) : Prop :=
  years = 0%Z
  \/ (rate == - (1200) /\ (years < 0)%Z)
  \/ rate == - (2400).

(** [remaining_balance(P, r, emi, k)]: the closed form, with no branch on
    [r]. *)
Definition remaining_balance (P r emi : Q) (k : Z) : result Q :=
  p1 <- Py.pow (1 +! r) k ;;
  p2 <- Py.pow (1 +! r) k ;;
  q <- Py.div (emi *! (p2 -! 1)) r ;;
  Ok (P *! p1 -! q).

(** [future_value_monthly_sip(pmt, annual_return, months)] *)
Definition future_value_monthly_sip (pmt annual_return : Q) (months : Z)
  : result Q :=
  let r := Py.div_lit annual_return (Py.of_int (12 * 100)) in
  if Py.eqb r 0 then Ok (pmt *! Py.of_int months)
  else
    p <- Py.pow (1 +! r) months ;;
    Py.div (pmt *! (p -! 1)) r.

(** [npv_stream(payment, discount_rate, months)] *)
Definition npv_stream (payment discount_rate : Q) (months : Z) : result Q :=
  let r := Py.div_lit discount_rate (Py.of_int (12 * 100)) in
  if Py.eqb r 0 then Ok (payment *! Py.of_int months)
  else
    p <- Py.pow (1 +! r) (- months) ;;
    Py.div (payment *! (1 -! p)) r.

(** ** TAB 1 - EMI *)

Inductive burden : Type := LightBurden | HeavyBurden | VeryHeavyBurden.

Record emi_lab : Type := {
  total_payment : Q;
  total_interest : Q;
  interest_burden : burden
}.

Definition emi_tab (loan_amount emi : Q) (n : Z) : result emi_lab :=
  let total_payment := emi *! Py.of_int n in
  let total_interest := total_payment -! loan_amount in
  ratio <- Py.div total_interest loan_amount ;;
  Ok {| total_payment := total_payment;
        total_interest := total_interest;
        interest_burden :=
          if Py.ltb ratio (3 # 10) then LightBurden
          else if Py.ltb ratio (7 # 10) then HeavyBurden
          else VeryHeavyBurden |}.

(** ** TAB 2 - PREPAYMENT *)

Record prepayment_metrics : Type := {
  months_saved : Z;
  interest_saved : Q;
  new_n : Z
}.

Section Prepayment.

(** The value of [math.log] on its domain. *)
Variable ln : Q -> Q.

(** [math.log(x)] *)
Definition math_log (x : Q) : result Q :=
  if Py.gtb x 0 then Ok (ln x) else Raise ValueError.

(** The body of [with tab2:], from the values [emi, n, r] of the script
    and the two widgets.  [None]: the [if] was not entered and nothing
    is displayed. *)
Definition prepayment_lab (loan_amount r emi : Q) (n : Z)
           (prepay_year : Z) (prepay_amount : Q)
  : result (option prepayment_metrics) :=
  let k := (prepay_year * 12)%Z in
  balance_before <- remaining_balance loan_amount r emi k ;;
  let new_balance := balance_before -! prepay_amount in
  if Py.gtb new_balance 0 then
    a <- Py.div emi (emi -! new_balance *! r) ;;
    la <- math_log a ;;
    lb <- math_log (1 +! r) ;;
    q <- Py.div la lb ;;
    let new_n := Py.ceil q in
    let original_remaining := (n - k)%Z in
    let new_remaining_payment := emi *! Py.of_int new_n in
    let original_remaining_payment := emi *! Py.of_int original_remaining in
    Ok (Some {| months_saved := (original_remaining - new_n)%Z;
                interest_saved :=
                  original_remaining_payment -! new_remaining_payment;
                new_n := new_n |})
  else Ok None.

(** Line 82 followed by the prepayment tab. *)
Definition prepayment_tab (loan_amount interest_rate : Q)
           (remaining_years prepay_year : Z) (prepay_amount : Q)
  : result (option prepayment_metrics) :=
  '(emi, n, r) <- calculate_emi loan_amount interest_rate remaining_years ;;
  prepayment_lab loan_amount r emi n prepay_year prepay_amount.

End Prepayment.

(** A rational approximation of the natural logarithm, to run the model:
    [2 * (t + t^3/3 + t^5/5 + ...)] with [t = (x-1)/(x+1)], eight terms,
    every intermediate value truncated to a multiple of [2^-32]. *)
Definition truncate (x : Q) : Q :=
  Qred (inject_Z (Qfloor (x * inject_Z (2 ^ 32))) / inject_Z (2 ^ 32)).

Fixpoint ln_terms (count : nat) (j : Z) (tp t2 : Q) : Q :=
  match count with
  | O => 0
  | S c => Qred (tp / inject_Z (2 * j + 1)
                 + ln_terms c (j + 1) (truncate (tp * t2)) t2)
  end.

Definition ln_approx (x : Q) : Q :=
  let x := truncate x in
  let t := truncate ((x - 1) / (x + 1)) in
  Qred (2 * ln_terms 8 0 t (truncate (t * t))).

(** ** TAB 3 - DECISION *)

Record loop_state : Type := {
  balance : Q;
  months : Z;
  total_payment_with_prepay : Q
}.

(** [balance > 0 and months < 1000] *)
Definition loop_cond (s : loop_state) : bool :=
  Py.gtb (balance s) 0 && (months s <? 1000)%Z.

Definition loop_body (r emi extra_monthly : Q) (s : loop_state) : loop_state :=
  let interest := balance s *! r in
  let payment := emi +! extra_monthly in
  let principal_paid := payment -! interest in
  {| balance := balance s -! principal_paid;
     months := (months s + 1)%Z;
     total_payment_with_prepay := total_payment_with_prepay s +! payment |}.

Fixpoint while (fuel : nat) (cond : loop_state -> bool)
         (body : loop_state -> loop_state) (s : loop_state) : loop_state :=
  match fuel with
  | O => s
  | S f => if cond s then while f cond body (body s) else s
  end.

Definition loop_init (loan_amount : Q) : loop_state :=
  {| balance := loan_amount; months := 0; total_payment_with_prepay := 0 |}.

(** The [while] of the decision tab.  The counter starts at 0 and the
    condition stops it at 1000, so 1000 units of fuel are enough (see
    [payoff_loop_fuel]). *)
Definition payoff_loop (loan_amount r emi extra_monthly : Q) : loop_state :=
  while 1000 loop_cond (loop_body r emi extra_monthly) (loop_init loan_amount).

(** The state after [k] iterations, when the loop executes that many. *)
Fixpoint loop_after (k : nat) (r emi extra_monthly : Q) (s : loop_state)
  : option loop_state :=
  match k with
  | O => Some s
  | S k' => if loop_cond s
            then loop_after k' r emi extra_monthly (loop_body r emi extra_monthly s)
            else None
  end.

(** The balance of the original schedule after [k] of [n] instalments, with
    the instalment eliminated: [x] stands for [1 + r]. *)
Definition scheduled_balance (P x : Q) (n k : nat) : Q :=
  P * (x ^ Z.of_nat n - x ^ Z.of_nat k) / (x ^ Z.of_nat n - 1).

Inductive verdict : Type := InvestingWins | PrepayingWins.

Record decision : Type := {
  loan_closes_in : Z;
  years_saved : Q;
  prepay_interest_saved : Q;
  fv : Q;
  decision_verdict : verdict
}.

(** The first half of [with tab3:], from the values [emi, n, r] of the
    script, the two widgets and the state of the recession button. *)
Definition prepay_vs_invest (loan_amount r emi : Q) (n : Z)
           (extra_monthly expected_return : Q) (recession_shock : bool)
  : result decision :=
  let expected_return := if recession_shock then 5 else expected_return in
  let s := payoff_loop loan_amount r emi extra_monthly in
  let interest_saved :=
    (emi *! Py.of_int n -! loan_amount)
    -! (total_payment_with_prepay s -! loan_amount) in
  let years_saved := Py.div_lit (Py.of_int (n - months s)) 12 in
  fv <- future_value_monthly_sip extra_monthly expected_return n ;;
  Ok {| loan_closes_in := months s;
        years_saved := years_saved;
        prepay_interest_saved := interest_saved;
        fv := fv;
        decision_verdict :=
          if Py.gtb fv interest_saved then InvestingWins else PrepayingWins |}.

(** Line 82 followed by the first half of the decision tab. *)
Definition decision_tab (loan_amount interest_rate : Q) (remaining_years : Z)
           (extra_monthly expected_return : Q) (recession_shock : bool)
  : result decision :=
  '(emi, n, r) <- calculate_emi loan_amount interest_rate remaining_years ;;
  prepay_vs_invest loan_amount r emi n extra_monthly expected_return
                   recession_shock.

(** *** Case scenarios: buy versus rent *)

(** Lines 220-228: the differential at one point. *)
Definition buy_vs_rent (loan_amount interest_rate : Q) (remaining_years : Z)
           (rent discount_rate price_growth : Q) : result Q :=
  '(emi_case, n_case, _) <-
     calculate_emi loan_amount interest_rate remaining_years ;;
  pv_buy <- npv_stream emi_case discount_rate n_case ;;
  pv_rent <- npv_stream rent discount_rate n_case ;;
  gp <- Py.pow (1 +! Py.div_lit price_growth 100) remaining_years ;;
  let future_price := loan_amount *! gp in
  dp <- Py.pow (1 +! Py.div_lit discount_rate 100) remaining_years ;;
  pv_resale <- Py.div future_price dp ;;
  Ok ((pv_buy -! pv_resale) -! pv_rent).

(** [np.linspace(start, stop, num)] *)
Definition linspace (start stop : Q) (num : nat) : list Q :=
  let step := Py.div_lit (stop -! start) (Py.of_int (Z.of_nat num - 1)) in
  map (fun i => start +! Py.of_int (Z.of_nat i) *! step) (seq 0 num).

Definition rates : list Q := linspace 2 15 25.
Definition rate_range : list Q := linspace 5 15 12.
Definition growth_range : list Q := linspace 0 10 12.

(** The body of the two sweep loops (lines 244-248 and 266-270): [n_case]
    and [pv_rent] are the values computed once, before the loops. *)
Definition sweep_cell (loan_amount : Q) (remaining_years : Z)
           (discount_rate : Q) (n_case : Z) (pv_rent : Q) (g rate : Q)
  : result Q :=
  '(emi_t, _, _) <- calculate_emi loan_amount rate remaining_years ;;
  pv_buy_t <- npv_stream emi_t discount_rate n_case ;;
  gp <- Py.pow (1 +! Py.div_lit g 100) remaining_years ;;
  let future_price_t := loan_amount *! gp in
  dp <- Py.pow (1 +! Py.div_lit discount_rate 100) remaining_years ;;
  pv_resale_t <- Py.div future_price_t dp ;;
  Ok ((pv_buy_t -! pv_resale_t) -! pv_rent).

Record case_lab : Type := {
  diff : Q;
  vals : list Q;
  heat : list (list Q)
}.

(** The second half of [with tab3:]: the differential, the rate sweep of
    the graph and the heatmap. *)
Definition case_scenarios (loan_amount interest_rate : Q) (remaining_years : Z)
           (rent discount_rate price_growth : Q) : result case_lab :=
  '(emi_case, n_case, _) <-
     calculate_emi loan_amount interest_rate remaining_years ;;
  pv_buy <- npv_stream emi_case discount_rate n_case ;;
  pv_rent <- npv_stream rent discount_rate n_case ;;
  gp <- Py.pow (1 +! Py.div_lit price_growth 100) remaining_years ;;
  let future_price := loan_amount *! gp in
  dp <- Py.pow (1 +! Py.div_lit discount_rate 100) remaining_years ;;
  pv_resale <- Py.div future_price dp ;;
  let diff := (pv_buy -! pv_resale) -! pv_rent in
  vals <- mapM (sweep_cell loan_amount remaining_years discount_rate
                           n_case pv_rent price_growth) rates ;;
  heat <- mapM (fun g =>
                  mapM (sweep_cell loan_amount remaining_years discount_rate
                                   n_case pv_rent g) rate_range)
               growth_range ;;
  Ok {| diff := diff; vals := vals; heat := heat |}.

(** The cell of a matrix, row [i] and column [j]. *)
Definition cell {A : Type} (m : list (list A)) (i j : nat) : option A :=
  match nth_error m i with
  | Some row => nth_error row j
  | None => None
  end.

(** ** SALARY STRESS METER *)

Inductive stress : Type :=
| ComfortableZone
| ManageableButTight
| FinancialStressLikely.

(** Lines 90-98: the ratio of the instalment to the salary and its band. *)
Definition stress_meter (emi salary : Q) : result (Q * stress) :=
  emi_ratio <- Py.div emi salary ;;
  Ok (emi_ratio,
      if Py.ltb emi_ratio (2 # 10) then ComfortableZone
      else if Py.ltb emi_ratio (4 # 10) then ManageableButTight
      else FinancialStressLikely).

(** ** The verdict of the case scenarios *)

Inductive housing_verdict : Type := BuyingWins | RentingWins.

(** Lines 232-235. *)
Definition case_verdict (diff : Q) : housing_verdict :=
  if Py.ltb diff 0 then BuyingWins else RentingWins.

(** ** The script as a whole *)




(** Unfold the total operations and drop the reductions to lowest terms. *)
Ltac py_norm :=
  unfold Py.add, Py.sub, Py.mul, Py.div_lit, Py.of_int in *;
  repeat rewrite Qred_correct in *.

(** * Properties *)

(** ** The arithmetic primitives *)

Module PyFacts.

Lemma add_eq x y : x +! y == x + y.
Proof. apply Qred_correct. Qed.

Lemma sub_eq x y : x -! y == x - y.
Proof. apply Qred_correct. Qed.

Lemma mul_eq x y : x *! y == x * y.
Proof. apply Qred_correct. Qed.

Lemma div_lit_eq x c : Py.div_lit x c == x / c.
Proof. apply Qred_correct. Qed.

Lemma gtb_true x y : Py.gtb x y = true <-> y < x.
Proof.
  unfold Py.gtb. pose proof (Qgt_alt x y) as H.
  destruct (x ?= y); split; intros H';
    first [ reflexivity | discriminate | now apply H
          | apply H in H'; discriminate ].
Qed.

Lemma gtb_false x y : Py.gtb x y = false <-> x <= y.
Proof.
  unfold Py.gtb. pose proof (Qle_alt x y) as H.
  destruct (x ?= y); split; intros H';
    first [ reflexivity | discriminate | apply H; discriminate
          | apply H in H'; congruence ].
Qed.

Lemma eqb_true x y : Py.eqb x y = true <-> x == y.
Proof. apply Qeq_bool_iff. Qed.

Lemma eqb_false x y : Py.eqb x y = false <-> ~ x == y.
Proof.
  unfold Py.eqb. split.
  - apply Qeq_bool_neq.
  - intros H. destruct (Qeq_bool x y) eqn:E; [|reflexivity].
    apply Qeq_bool_iff in E. contradiction.
Qed.

Lemma div_raise x y : y == 0 -> Py.div x y = Raise ZeroDivisionError.
Proof.
  intros H. unfold Py.div. apply Qeq_bool_iff in H. now rewrite H.
Qed.

Lemma div_ok x y : ~ y == 0 -> Py.div x y = Ok (Qred (x / y)).
Proof.
  intros H. unfold Py.div. apply eqb_false in H. unfold Py.eqb in H.
  now rewrite H.
Qed.

Lemma pow_ok_base x n : ~ x == 0 -> Py.pow x n = Ok (Qred (x ^ n)).
Proof.
  intros H. unfold Py.pow. apply eqb_false in H. unfold Py.eqb in H.
  now rewrite H.
Qed.

Lemma pow_ok_exp x n : (0 <= n)%Z -> Py.pow x n = Ok (Qred (x ^ n)).
Proof.
  intros H. unfold Py.pow. apply Z.ltb_ge in H. rewrite H.
  now rewrite andb_false_r.
Qed.

Lemma pow_raise x n : x == 0 -> (n < 0)%Z -> Py.pow x n = Raise ZeroDivisionError.
Proof.
  intros H Hn. unfold Py.pow. apply Qeq_bool_iff in H. apply Z.ltb_lt in Hn.
  now rewrite H, Hn.
Qed.

End PyFacts.

(** ** [remaining_balance] *)

(** At a zero periodic rate the closed form divides by zero, whatever the
    other arguments. *)
Lemma remaining_balance_rate_zero P r emi k :
  r == 0 -> remaining_balance P r emi k = Raise ZeroDivisionError.
Proof.
  intros Hr. unfold remaining_balance.
  assert (Hb : ~ 1 +! r == 0).
  { rewrite PyFacts.add_eq, Hr. discriminate. }
  rewrite (PyFacts.pow_ok_base _ k Hb). cbn [bind].
  now rewrite PyFacts.div_raise.
Qed.

(** Away from it, and for a month count that is not negative, the closed
    form is defined and has the textbook value. *)
Lemma remaining_balance_value P r emi k :
  ~ r == 0 -> (0 <= k)%Z ->
  exists b, remaining_balance P r emi k = Ok b
            /\ b == P * (1 + r) ^ k - emi * ((1 + r) ^ k - 1) / r.
Proof.
  intros Hr Hk. unfold remaining_balance.
  rewrite (PyFacts.pow_ok_exp _ k Hk). cbn [bind].
  rewrite (PyFacts.div_ok _ r Hr). cbn [bind].
  eexists; split; [reflexivity|].
  py_norm. reflexivity.
Qed.

(** ** Powers of a rational *)

Lemma Qpower_gt_1_neq x n : 1 < x -> n <> 0%Z -> ~ x ^ n == 1.
Proof.
  intros Hx Hn H.
  destruct (Z.lt_trichotomy n 0) as [Hneg | [Hz | Hpos]]; [| contradiction |].
  - assert (Hp : 1 < x ^ (- n)) by (apply Qpower_1_lt; [assumption | lia]).
    rewrite Qpower_opp, H in Hp. revert Hp. apply Qlt_irrefl.
  - assert (Hp : 1 < x ^ n) by (apply Qpower_1_lt; assumption).
    rewrite H in Hp. revert Hp. apply Qlt_irrefl.
Qed.

Lemma Qpower_pos_neq_1 x n : 0 < x -> ~ x == 1 -> n <> 0%Z -> ~ x ^ n == 1.
Proof.
  intros Hx Hx1 Hn H.
  destruct (Qlt_le_dec 1 x) as [Hgt | Hle].
  - exact (Qpower_gt_1_neq x n Hgt Hn H).
  - assert (Hlt : x < 1) by (apply Qle_lteq in Hle; tauto).
    assert (Hinv : 1 < / x).
    { apply Qlt_shift_inv_l. exact Hx.
      setoid_replace (1 * x) with x by ring. exact Hlt. }
    apply (Qpower_gt_1_neq (/ x) n Hinv Hn).
    rewrite Qinv_power, H. reflexivity.
Qed.

(** A rational other than 0, 1 and -1 has no power equal to 1 but the
    trivial one. *)
Lemma Qpower_neq_1 x n :
  ~ x == 0 -> ~ x == 1 -> ~ x == - (1) -> n <> 0%Z -> ~ x ^ n == 1.
Proof.
  intros H0 H1 Hm1 Hn H.
  assert (Hsq : 0 < x * x).
  { destruct (Qlt_le_dec 0 x) as [Hp | Hnp].
    - apply Qmult_lt_0_compat; assumption.
    - assert (Hneg : x < 0) by (apply Qle_lteq in Hnp; tauto).
      setoid_replace (x * x) with ((- x) * (- x)) by ring.
      apply Qmult_lt_0_compat; lra. }
  apply (Qpower_pos_neq_1 (x * x) n Hsq); [| assumption |].
  - intros Hone.
    assert (Hprod : (x - 1) * (x + 1) == 0) by (ring_simplify; lra).
    destruct (Qmult_integral _ _ Hprod) as [Ha | Hb].
    + apply H1. lra.
    + apply Hm1. lra.
  - rewrite Qmult_power, H. reflexivity.
Qed.

(** The sum of a geometric progression is at most its length times its
    largest term. *)
Lemma Qpower_growth_bound r (k : nat) :
  0 <= r ->
  (1 + r) ^ Z.of_nat k - 1 <= inject_Z (Z.of_nat k) * r * (1 + r) ^ Z.of_nat k.
Proof.
  intros Hr. induction k as [| k IH].
  - change (1 - 1 <= 0 * r * 1). lra.
  - rewrite Nat2Z.inj_succ, <- Z.add_1_r.
    rewrite Qpower_plus by lra.
    rewrite inject_Z_plus. simpl (inject_Z 1). simpl ((1 + r) ^ 1).
    assert (Hge : 1 <= (1 + r) ^ Z.of_nat k).
    { apply Qpower_1_le; [lra | lia]. }
    set (x := (1 + r) ^ Z.of_nat k) in *.
    set (m := inject_Z (Z.of_nat k)) in *.
    assert (Hm : 0 <= m).
    { unfold m. change 0 with (inject_Z 0). rewrite <- Zle_Qle. lia. }
    clearbody x m. change (inject_Z 1) with 1.
    assert (A1 : 0 <= (m * r * x - (x - 1)) * (1 + r))
      by (apply Qmult_le_0_compat; lra).
    assert (A2 : 0 <= r * (x - 1)) by (apply Qmult_le_0_compat; lra).
    assert (A3 : 0 <= r * r * x)
      by (repeat apply Qmult_le_0_compat; lra).
    lra.
Qed.

(** ** [calculate_emi] *)

Lemma periodic_rate_eq rate :
  Py.div_lit rate (Py.of_int (12 * 100)) == rate * (1 # 1200).
Proof. py_norm. reflexivity. Qed.

(** The second and third components do not depend on the branch taken. *)
Lemma calculate_emi_shape P rate years emi n r :
  calculate_emi P rate years = Ok (emi, n, r) ->
  n = (years * 12)%Z /\ r = Py.div_lit rate (Py.of_int (12 * 100)).
Proof.
  unfold calculate_emi.
  destruct (Py.eqb _ 0).
  - destruct (Py.div P _); cbn [bind]; [|discriminate].
    intros H; inversion H; auto.
  - destruct (Py.pow _ _); cbn [bind]; [|discriminate].
    destruct (Py.div _ _); cbn [bind]; [|discriminate].
    intros H; inversion H; auto.
Qed.

(** Every failure of [calculate_emi] is a division by zero. *)
Lemma calculate_emi_raise_kind P rate years e :
  calculate_emi P rate years = Raise e -> e = ZeroDivisionError.
Proof.
  unfold calculate_emi, Py.div, Py.pow.
  destruct (Py.eqb _ 0).
  - destruct (Qeq_bool _ 0); cbn [bind]; congruence.
  - destruct (Qeq_bool _ 0 && _)%bool; cbn [bind]; [congruence|].
    destruct (Qeq_bool _ 0); cbn [bind]; congruence.
Qed.

Lemma inject_Z_eq_0 n : inject_Z n == 0 <-> n = 0%Z.
Proof.
  change 0 with (inject_Z 0). rewrite inject_Z_injective. tauto.
Qed.

Lemma calculate_emi_raises_iff P rate years :
  raises (calculate_emi P rate years) <-> emi_undefined rate years.
Proof.
  unfold calculate_emi, emi_undefined, raises.
  pose proof (periodic_rate_eq rate) as Hr.
  set (r := Py.div_lit rate (Py.of_int (12 * 100))) in *.
  set (n := (years * 12)%Z).
  destruct (Py.eqb r 0) eqn:E.
  - apply PyFacts.eqb_true in E.
    destruct (Z.eq_dec years 0) as [Hy | Hy].
    + rewrite PyFacts.div_raise
        by (unfold Py.of_int; apply inject_Z_eq_0; unfold n; lia).
      cbn [bind]. split; eauto.
    + rewrite PyFacts.div_ok
        by (unfold Py.of_int; rewrite inject_Z_eq_0; unfold n; lia).
      cbn [bind]. split.
      * intros [e He]. discriminate.
      * intros [H | [[H _] | H]]; [contradiction | lra | lra].
  - apply PyFacts.eqb_false in E.
    assert (Hq : 1 +! r == 1 + rate * (1 # 1200))
      by (rewrite PyFacts.add_eq, Hr; reflexivity).
    set (q := 1 +! r) in *.
    destruct (Qeq_dec q 0) as [Hq0 | Hq0].
    + (* rate = -1200 *)
      destruct (Z_lt_le_dec years 0) as [Hneg | Hnn].
      * rewrite PyFacts.pow_raise by (auto; unfold n; lia).
        cbn [bind]. split; [|eauto].
        intros _. right; left. split; [lra | assumption].
      * rewrite PyFacts.pow_ok_exp by (unfold n; lia). cbn [bind].
        destruct (Z.eq_dec years 0) as [Hy | Hy].
        -- rewrite PyFacts.div_raise.
           ++ cbn [bind]. split; eauto.
           ++ rewrite PyFacts.sub_eq, Qred_correct.
              unfold n. rewrite Hy. reflexivity.
        -- rewrite PyFacts.div_ok.
           ++ cbn [bind]. split.
              ** intros [e He]. discriminate.
              ** intros [H | [[_ H] | H]]; [contradiction | lia | lra].
           ++ rewrite PyFacts.sub_eq, Qred_correct, Hq0.
              rewrite Qpower_0 by (unfold n; lia). discriminate.
    + rewrite PyFacts.pow_ok_base by assumption. cbn [bind].
      destruct (Qeq_dec q (- (1))) as [Hm | Hm].
      * (* rate = -2400 *)
        rewrite PyFacts.div_raise.
        -- cbn [bind]. split; [|eauto]. intros _. right; right. lra.
        -- rewrite PyFacts.sub_eq, Qred_correct, Hm.
           unfold n. rewrite Z.mul_comm, Qpower_mult.
           change ((- (1)) ^ 12) with 1. rewrite Qpower_1. reflexivity.
      * destruct (Z.eq_dec years 0) as [Hy | Hy].
        -- rewrite PyFacts.div_raise.
           ++ cbn [bind]. split; eauto.
           ++ rewrite PyFacts.sub_eq, Qred_correct.
              unfold n. rewrite Hy. reflexivity.
        -- rewrite PyFacts.div_ok.
           ++ cbn [bind]. split.
              ** intros [e He]. discriminate.
              ** intros [H | [[H _] | H]]; [contradiction | |];
                   exfalso; [apply Hq0 | apply Hm]; lra.
           ++ rewrite PyFacts.sub_eq, Qred_correct.
              intros H. apply (Qpower_neq_1 q n); try assumption.
              ** intros H1. apply E. lra.
              ** unfold n. lia.
              ** lra.
Qed.

Lemma calculate_emi_returns P rate years :
  ~ emi_undefined rate years ->
  exists emi,
    calculate_emi P rate years
    = Ok (emi, (years * 12)%Z, Py.div_lit rate (Py.of_int (12 * 100))).
Proof.
  intros Hdef.
  destruct (calculate_emi P rate years) as [[[emi n] r] | e] eqn:E.
  - destruct (calculate_emi_shape _ _ _ _ _ _ E) as [-> ->]. eauto.
  - exfalso. apply Hdef. apply (calculate_emi_raises_iff P).
    rewrite E. exists e. reflexivity.
Qed.

(** C3 (amended).  [calculate_emi] validates nothing and has no
    invalid-input outcome.  It fails exactly when one of its divisors
    vanishes, that is when [years = 0], when the annual rate is -1200 with
    a negative tenure, or when the annual rate is -2400; every such failure
    is a [ZeroDivisionError].  On all other inputs, whatever the sign of
    the principal, of the rate or of the tenure, it returns the triple
    [(emi, years * 12, annual_rate / 1200)]. *)
Theorem calculate_emi_fails_only_on_zero_divisor P rate years :
  (raises (calculate_emi P rate years) <-> emi_undefined rate years)
  /\ (forall e, calculate_emi P rate years = Raise e -> e = ZeroDivisionError)
  /\ (~ emi_undefined rate years ->
      exists emi,
        calculate_emi P rate years
        = Ok (emi, (years * 12)%Z, Py.div_lit rate (Py.of_int (12 * 100)))).
Proof.
  split; [apply calculate_emi_raises_iff|].
  split; [intros e; apply calculate_emi_raise_kind|].
  apply calculate_emi_returns.
Qed.

(** C3 (as stated) fails: a negative principal is accepted. *)
Lemma calculate_emi_accepts_negative_principal :
  (- (100) <= 0 \/ (5 <= 0)%Z \/ 10 < 0)
  /\ returns (calculate_emi (- (100)) 10 5).
Proof.
  split; [left; discriminate|].
  eexists. vm_compute. reflexivity.
Qed.

(** The value of the instalment on the inputs the script is meant for. *)
Lemma calculate_emi_value P rate years :
  0 <= rate -> (0 < years)%Z ->
  exists emi,
    calculate_emi P rate years
    = Ok (emi, (years * 12)%Z, Py.div_lit rate (Py.of_int (12 * 100)))
    /\ let r := rate * (1 # 1200) in
       let n := (years * 12)%Z in
       (r == 0 -> emi == P / inject_Z n)
       /\ (~ r == 0 ->
           1 < (1 + r) ^ n
           /\ emi == P * r * (1 + r) ^ n / ((1 + r) ^ n - 1)).
Proof.
  intros Hrate Hyears.
  unfold calculate_emi.
  pose proof (periodic_rate_eq rate) as Hr.
  set (r := Py.div_lit rate (Py.of_int (12 * 100))) in *.
  set (n := (years * 12)%Z).
  assert (Hn : (0 < n)%Z) by (unfold n; lia).
  destruct (Py.eqb r 0) eqn:E.
  - apply PyFacts.eqb_true in E.
    rewrite PyFacts.div_ok
      by (unfold Py.of_int; rewrite inject_Z_eq_0; lia).
    cbn [bind]. eexists; split; [reflexivity|]. cbn zeta. split.
    + intros _. py_norm. reflexivity.
    + intros H. exfalso. apply H. rewrite <- Hr. exact E.
  - apply PyFacts.eqb_false in E.
    assert (Hpos : 0 < rate * (1 # 1200)) by lra.
    assert (Hgt : 1 < (1 + rate * (1 # 1200)) ^ n)
      by (apply Qpower_1_lt; [lra | assumption]).
    rewrite PyFacts.pow_ok_exp by lia. cbn [bind].
    assert (Hx : Qred ((1 +! r) ^ n) == (1 + rate * (1 # 1200)) ^ n)
      by (rewrite Qred_correct, PyFacts.add_eq, Hr; reflexivity).
    rewrite PyFacts.div_ok
      by (rewrite PyFacts.sub_eq, Hx; lra).
    cbn [bind]. eexists; split; [reflexivity|]. cbn zeta. split.
    + intros H. exfalso. lra.
    + intros _. split; [assumption|].
      rewrite Qred_correct, PyFacts.sub_eq, !PyFacts.mul_eq, Hx, Hr.
      reflexivity.
Qed.

(** C7.  For a positive principal, a rate that is not negative and a
    positive tenure, [calculate_emi] returns an instalment and a number of
    periods whose product is at least the principal. *)
Theorem total_payment_covers_principal P rate years :
  0 < P -> 0 <= rate -> (0 < years)%Z ->
  exists emi n r,
    calculate_emi P rate years = Ok (emi, n, r)
    /\ P <= emi * inject_Z n.
Proof.
  intros HP Hrate Hyears.
  destruct (calculate_emi_value P rate years Hrate Hyears)
    as [emi [Hemi [Hzero Hnz]]].
  exists emi, (years * 12)%Z, (Py.div_lit rate (Py.of_int (12 * 100))).
  split; [exact Hemi|].
  set (n := (years * 12)%Z) in *.
  assert (Hn : (0 < n)%Z) by (unfold n; lia).
  assert (HnQ : 0 < inject_Z n)
    by (change 0 with (inject_Z 0); rewrite <- Zlt_Qlt; exact Hn).
  destruct (Qeq_dec (rate * (1 # 1200)) 0) as [Hr0 | Hr0].
  - rewrite (Hzero Hr0). apply Qle_lteq. right. field. lra.
  - destruct (Hnz Hr0) as [Hgt Hval]. rewrite Hval.
    set (r := rate * (1 # 1200)) in *.
    assert (Hbound : (1 + r) ^ n - 1 <= inject_Z n * r * (1 + r) ^ n).
    { rewrite <- (Z2Nat.id n) by lia.
      apply Qpower_growth_bound. unfold r. lra. }
    set (x := (1 + r) ^ n) in *. clearbody x.
    assert (Hd : 0 < x - 1) by lra.
    apply Qle_trans with (P * (inject_Z n * r * x) / (x - 1)).
    + apply Qle_shift_div_l; [exact Hd|].
      apply Qmult_le_l; [exact HP | exact Hbound].
    + apply Qle_lteq. right. field. lra.
Qed.

Lemma total_payment_covers_principal_witness :
  exists emi n r,
    calculate_emi 500000 10 5 = Ok (emi, n, r)
    /\ 500000 <= emi * inject_Z n.
Proof.
  apply (total_payment_covers_principal 500000 10 5);
    [reflexivity | discriminate | reflexivity].
Defined.

(** ** The closed form of the balance *)

(** C1 (the code fails here).  On the zero-rate loan of 500000 over five
    years [calculate_emi] returns a periodic rate equal to zero, and with
    it [remaining_balance] raises [ZeroDivisionError] at every month count,
    month 0 included: the closed form has no branch for a zero rate. *)
Theorem remaining_balance_zero_rate_loan :
  exists emi n r,
    calculate_emi 500000 0 5 = Ok (emi, n, r)
    /\ r == 0
    /\ forall k, remaining_balance 500000 r emi k = Raise ZeroDivisionError.
Proof.
  eexists; eexists; eexists.
  split; [vm_compute; reflexivity|].
  split; [reflexivity|].
  intros k. apply remaining_balance_rate_zero. reflexivity.
Qed.

Lemma remaining_balance_succ P r emi k :
  ~ r == 0 -> (0 <= k)%Z ->
  exists b b',
    remaining_balance P r emi k = Ok b
    /\ remaining_balance P r emi (k + 1) = Ok b'
    /\ b' == b * (1 + r) - emi.
Proof.
  intros Hr Hk.
  destruct (remaining_balance_value P r emi k Hr Hk) as [b [Hb Hbv]].
  destruct (remaining_balance_value P r emi (k + 1) Hr ltac:(lia))
    as [b' [Hb' Hbv']].
  exists b, b'. repeat split; try assumption.
  rewrite Hbv', Hbv.
  rewrite Qpower_plus' by lia.
  change ((1 + r) ^ 1) with (1 + r).
  field. exact Hr.
Qed.

Lemma loop_body_balance r emi s :
  balance (loop_body r emi 0 s) == balance s * (1 + r) - emi.
Proof.
  unfold loop_body. cbn [balance]. py_norm. ring.
Qed.

Lemma loop_after_closed_form P r emi :
  ~ r == 0 ->
  forall k s s' j b,
    (0 <= j)%Z ->
    remaining_balance P r emi j = Ok b ->
    balance s == b ->
    loop_after k r emi 0 s = Some s' ->
    exists b', remaining_balance P r emi (j + Z.of_nat k) = Ok b'
               /\ balance s' == b'.
Proof.
  intros Hr. induction k as [| k IH]; intros s s' j b Hj Hb Hs Hrun.
  - cbn in Hrun. inversion Hrun; subst s'.
    exists b. rewrite Z.add_0_r. auto.
  - cbn [loop_after] in Hrun.
    destruct (loop_cond s); [|discriminate].
    destruct (remaining_balance_succ P r emi j Hr Hj)
      as [b1 [b2 [H1 [H2 H12]]]].
    rewrite Hb in H1. inversion H1; subst b1.
    replace (j + Z.of_nat (S k))%Z with ((j + 1) + Z.of_nat k)%Z by lia.
    apply (IH (loop_body r emi 0 s) s' (j + 1)%Z b2); try assumption.
    + lia.
    + rewrite loop_body_balance, Hs, H12. reflexivity.
Qed.

(** C9.  For a periodic rate other than zero, the closed form starts at the
    principal, obeys the amortisation recurrence
    [B(k+1) = B(k) * (1 + r) - emi] at every month [k >= 0], and therefore
    equals the balance held by the pay-down loop, run with no extra
    payment, after any number of iterations the loop performs. *)
Theorem closed_form_is_amortisation_recurrence P r emi :
  ~ r == 0 ->
  (exists b0, remaining_balance P r emi 0 = Ok b0 /\ b0 == P)
  /\ (forall k, (0 <= k)%Z ->
      exists b b',
        remaining_balance P r emi k = Ok b
        /\ remaining_balance P r emi (k + 1) = Ok b'
        /\ b' == b * (1 + r) - emi)
  /\ (forall k s,
      loop_after k r emi 0 (loop_init P) = Some s ->
      exists b, remaining_balance P r emi (Z.of_nat k) = Ok b
                /\ balance s == b).
Proof.
  intros Hr.
  assert (H0 : exists b0, remaining_balance P r emi 0 = Ok b0 /\ b0 == P).
  { destruct (remaining_balance_value P r emi 0 Hr ltac:(lia)) as [b [Hb Hv]].
    exists b. split; [assumption|]. rewrite Hv.
    change ((1 + r) ^ 0) with 1. field. exact Hr. }
  split; [exact H0|]. split.
  - intros k Hk. apply remaining_balance_succ; assumption.
  - intros k s Hrun. destruct H0 as [b0 [Hb0 Hv0]].
    apply (loop_after_closed_form P r emi Hr k (loop_init P) s 0%Z b0);
      try assumption; [lia|].
    cbn [loop_init balance]. symmetry. exact Hv0.
Qed.

Lemma closed_form_is_amortisation_recurrence_witness :
  (exists b0, remaining_balance 1000 (1 # 100) 400 0 = Ok b0 /\ b0 == 1000)
  /\ (forall k, (0 <= k)%Z ->
      exists b b',
        remaining_balance 1000 (1 # 100) 400 k = Ok b
        /\ remaining_balance 1000 (1 # 100) 400 (k + 1) = Ok b'
        /\ b' == b * (1 + (1 # 100)) - 400)
  /\ (forall k s,
      loop_after k (1 # 100) 400 0 (loop_init 1000) = Some s ->
      exists b, remaining_balance 1000 (1 # 100) 400 (Z.of_nat k) = Ok b
                /\ balance s == b).
Proof.
  apply (closed_form_is_amortisation_recurrence 1000 (1 # 100) 400).
  discriminate.
Defined.

(** The loop does run on that loan: two iterations are performed. *)
Example loop_after_two_months :
  exists s, loop_after 2 (1 # 100) 400 0 (loop_init 1000) = Some s
            /\ balance s == 2161 # 10.
Proof. eexists. split; [vm_compute; reflexivity | reflexivity]. Qed.

(** ** The prepayment tab *)

(** C5 (amended).  Whenever the balance before the prepayment is computed
    and the new balance is not positive, the prepayment tab produces no
    outcome: the guarded block is skipped and nothing is reported. *)
Theorem prepayment_lab_skips_retired_loan
        ln loan_amount r emi n prepay_year prepay_amount balance_before :
  remaining_balance loan_amount r emi (prepay_year * 12) = Ok balance_before ->
  balance_before - prepay_amount <= 0 ->
  prepayment_lab ln loan_amount r emi n prepay_year prepay_amount = Ok None.
Proof.
  intros Hb Hle. unfold prepayment_lab. rewrite Hb. cbn [bind].
  assert (Hg : Py.gtb (balance_before -! prepay_amount) 0 = false).
  { apply PyFacts.gtb_false. rewrite PyFacts.sub_eq. exact Hle. }
  rewrite Hg. reflexivity.
Qed.

Lemma prepayment_lab_skips_retired_loan_witness :
  prepayment_lab ln_approx 1000 (1 # 100) 400 36 0 2000 = Ok None.
Proof.
  eapply (prepayment_lab_skips_retired_loan ln_approx 1000 (1 # 100) 400 36 0 2000).
  - vm_compute. reflexivity.
  - vm_compute. discriminate.
Defined.

(** C5 (as stated) fails: a prepayment of the whole principal after two
    years of the 500000 loan at 10% over five years leaves a negative
    balance, and the tab reports nothing, where the claim wants an outcome
    with zero remaining periods. *)
Lemma prepayment_tab_full_prepayment_no_outcome :
  (exists emi n r balance_before,
      calculate_emi 500000 10 5 = Ok (emi, n, r)
      /\ remaining_balance 500000 r emi (2 * 12) = Ok balance_before
      /\ balance_before - 500000 <= 0)
  /\ prepayment_tab ln_approx 500000 10 5 2 500000 = Ok None.
Proof.
  split.
  - do 4 eexists. split; [vm_compute; reflexivity|].
    split; [vm_compute; reflexivity|]. vm_compute. discriminate.
  - vm_compute. reflexivity.
Qed.

(** C2 (amended).  When the new balance is positive and the instalment,
    itself not negative, does not exceed the interest on the new balance,
    the prepayment tab checks nothing and the arithmetic error propagates:
    [ZeroDivisionError] from the quotient when the instalment equals that
    interest, [ValueError] from [math.log] when it is smaller. *)
Theorem prepayment_lab_propagates_domain_error
        ln loan_amount r emi n prepay_year prepay_amount balance_before :
  remaining_balance loan_amount r emi (prepay_year * 12) = Ok balance_before ->
  0 < balance_before - prepay_amount ->
  0 <= emi ->
  emi <= (balance_before - prepay_amount) * r ->
  prepayment_lab ln loan_amount r emi n prepay_year prepay_amount
  = Raise (if Qeq_bool emi ((balance_before - prepay_amount) * r)
           then ZeroDivisionError else ValueError).
Proof.
  intros Hb Hpos Hemi Hle. unfold prepayment_lab. rewrite Hb. cbn [bind].
  assert (Hg : Py.gtb (balance_before -! prepay_amount) 0 = true).
  { apply PyFacts.gtb_true. rewrite PyFacts.sub_eq. exact Hpos. }
  rewrite Hg.
  assert (Hden : emi -! (balance_before -! prepay_amount) *! r
                 == emi - (balance_before - prepay_amount) * r).
  { py_norm. reflexivity. }
  destruct (Qeq_bool emi ((balance_before - prepay_amount) * r)) eqn:E.
  - apply Qeq_bool_iff in E.
    rewrite PyFacts.div_raise by (rewrite Hden; lra). reflexivity.
  - apply Qeq_bool_neq in E.
    assert (Hneg : emi - (balance_before - prepay_amount) * r < 0) by lra.
    rewrite PyFacts.div_ok by (rewrite Hden; lra). cbn [bind].
    unfold math_log.
    assert (Hq : Py.gtb (Qred (emi / (emi -! (balance_before -! prepay_amount) *! r))) 0
                 = false).
    { apply PyFacts.gtb_false. rewrite Qred_correct, Hden.
      set (d := emi - (balance_before - prepay_amount) * r) in *.
      assert (Hinv : 0 < / (- d)) by (apply Qinv_lt_0_compat; lra).
      setoid_replace (emi / d) with (- (emi * / (- d))) by (field; lra).
      assert (0 <= emi * / (- d)) by (apply Qmult_le_0_compat; lra).
      lra. }
    rewrite Hq. reflexivity.
Qed.

Lemma prepayment_lab_propagates_domain_error_witness :
  prepayment_lab ln_approx 1000 (1 # 100) 400 36 0 (- (50000)) = Raise ValueError.
Proof.
  eapply (prepayment_lab_propagates_domain_error
            ln_approx 1000 (1 # 100) 400 36 0 (- (50000)) 1000).
  - vm_compute. reflexivity.
  - reflexivity.
  - discriminate.
  - vm_compute. discriminate.
Defined.

(** C2 (as stated) fails: with a negative prepayment the new balance of the
    500000 loan exceeds what the instalment can amortise, and the tab ends
    in the domain error of [math.log]. *)
Lemma prepayment_tab_domain_error :
  (exists emi n r balance_before,
      calculate_emi 500000 10 5 = Ok (emi, n, r)
      /\ remaining_balance 500000 r emi (2 * 12) = Ok balance_before
      /\ 0 < balance_before - - (2000000)
      /\ emi <= (balance_before - - (2000000)) * r)
  /\ prepayment_tab ln_approx 500000 10 5 2 (- (2000000)) = Raise ValueError.
Proof.
  split.
  - do 4 eexists. split; [vm_compute; reflexivity|].
    split; [vm_compute; reflexivity|].
    split; [vm_compute; reflexivity | vm_compute; discriminate].
  - vm_compute. reflexivity.
Qed.

(** ** The pay-down loop *)

Section PayoffLoop.

Variables r emi extra_monthly : Q.

Lemma loop_cond_months s : loop_cond s = true -> (months s < 1000)%Z.
Proof.
  unfold loop_cond. intros H. apply andb_prop in H as [_ H].
  now apply Z.ltb_lt.
Qed.

(** The counter never passes the cap. *)
Lemma while_months_le fuel : forall s,
  (months s <= 1000)%Z ->
  (months (while fuel loop_cond (loop_body r emi extra_monthly) s) <= 1000)%Z.
Proof.
  induction fuel as [| fuel IH]; intros s Hs; cbn [while]; [assumption|].
  destruct (loop_cond s) eqn:E; [|assumption].
  apply IH. apply loop_cond_months in E. unfold loop_body.
  cbn [months]. lia.
Qed.

(** Given fuel for the iterations that remain below the cap, the loop
    stops because its condition is false, not because fuel ran out. *)
Lemma while_exits fuel : forall s,
  (1000 - months s <= Z.of_nat fuel)%Z ->
  loop_cond (while fuel loop_cond (loop_body r emi extra_monthly) s) = false.
Proof.
  induction fuel as [| fuel IH]; intros s Hs; cbn [while].
  - unfold loop_cond. replace (months s <? 1000)%Z with false.
    + apply andb_false_r.
    + symmetry. apply Z.ltb_ge. lia.
  - destruct (loop_cond s) eqn:E; [|assumption].
    apply IH. unfold loop_body. cbn [months]. lia.
Qed.

(** Once the condition is false, more fuel changes nothing. *)
Lemma while_stable fuel : forall s more,
  loop_cond (while fuel loop_cond (loop_body r emi extra_monthly) s) = false ->
  while (fuel + more) loop_cond (loop_body r emi extra_monthly) s = while fuel loop_cond (loop_body r emi extra_monthly) s.
Proof.
  induction fuel as [| fuel IH]; intros s more H; cbn [while plus] in *.
  - destruct more; cbn [while]; [reflexivity|]. now rewrite H.
  - destruct (loop_cond s); [|reflexivity]. now apply IH.
Qed.

(** A payment that does not exceed the interest on the principal never
    brings the balance below the principal: the loop runs to the cap. *)
Lemma while_no_progress loan_amount :
  0 <= r -> 0 < loan_amount -> emi + extra_monthly <= loan_amount * r ->
  forall fuel s,
    loan_amount <= balance s ->
    months s = (1000 - Z.of_nat fuel)%Z ->
    months (while fuel loop_cond (loop_body r emi extra_monthly) s) = 1000%Z
    /\ loan_amount <= balance (while fuel loop_cond (loop_body r emi extra_monthly) s).
Proof.
  intros Hr Hloan Hpay.
  induction fuel as [| fuel IH]; intros s Hbal Hm; cbn [while].
  - split; [lia | assumption].
  - assert (E : loop_cond s = true).
    { unfold loop_cond. apply andb_true_intro. split.
      - apply PyFacts.gtb_true. lra.
      - apply Z.ltb_lt. lia. }
    rewrite E. apply IH.
    + unfold loop_body. cbn [balance]. py_norm.
      assert (loan_amount * r <= balance s * r)
        by (apply Qmult_le_compat_r; assumption).
      lra.
    + unfold loop_body. cbn [months]. lia.
Qed.

End PayoffLoop.

(** The fuel of [payoff_loop] is enough: the result is that of the
    unbounded [while] of the script. *)
Lemma payoff_loop_fuel loan_amount r emi extra_monthly fuel :
  (1000 <= fuel)%nat ->
  while fuel loop_cond (loop_body r emi extra_monthly) (loop_init loan_amount)
  = payoff_loop loan_amount r emi extra_monthly.
Proof.
  intros H. replace fuel with (1000 + (fuel - 1000))%nat by lia.
  apply while_stable. apply while_exits. cbn [loop_init months]. lia.
Qed.

Lemma payoff_loop_exit loan_amount r emi extra_monthly :
  let s := payoff_loop loan_amount r emi extra_monthly in
  (months s <= 1000)%Z /\ (0 < balance s -> months s = 1000%Z).
Proof.
  cbn zeta. unfold payoff_loop. split.
  - apply while_months_le. cbn. lia.
  - intros Hpos.
    assert (Hc := while_exits r emi extra_monthly 1000 (loop_init loan_amount)
                              ltac:(cbn; lia)).
    assert (Hm := while_months_le r emi extra_monthly 1000 (loop_init loan_amount)
                                  ltac:(cbn; lia)).
    unfold loop_cond at 1 in Hc. apply PyFacts.gtb_true in Hpos.
    rewrite Hpos in Hc. cbn [andb] in Hc. apply Z.ltb_ge in Hc. lia.
Qed.

Lemma payoff_loop_no_progress loan_amount r emi extra_monthly :
  0 <= r -> 0 < loan_amount -> emi + extra_monthly <= loan_amount * r ->
  months (payoff_loop loan_amount r emi extra_monthly) = 1000%Z
  /\ loan_amount <= balance (payoff_loop loan_amount r emi extra_monthly).
Proof.
  intros Hr Hloan Hpay. unfold payoff_loop.
  apply (while_no_progress r emi extra_monthly loan_amount Hr Hloan Hpay).
  - cbn [loop_init balance]. apply Qle_refl.
  - reflexivity.
Qed.

Lemma future_value_monthly_sip_returns pmt annual_return months :
  (0 <= months)%Z -> returns (future_value_monthly_sip pmt annual_return months).
Proof.
  intros H. unfold future_value_monthly_sip, returns.
  destruct (Py.eqb _ 0) eqn:E; [eauto|].
  apply PyFacts.eqb_false in E.
  rewrite PyFacts.pow_ok_exp by assumption. cbn [bind].
  rewrite PyFacts.div_ok by assumption. eauto.
Qed.

(** C4 (amended).  Whenever the loop leaves with the balance still
    positive, it has reached the cap of 1000 iterations, and the tab goes
    on with [months = 1000] as an ordinary result: provided the future
    value is computed, a decision is returned whose pay-off time is 1000
    months.  No separate outcome exists for the exhausted cap. *)
Theorem cap_exhaustion_is_an_ordinary_result
        (loan_amount r emi : Q) (n : Z) (extra_monthly expected_return : Q)
        (recession_shock : bool) :
  0 < balance (payoff_loop loan_amount r emi extra_monthly) ->
  months (payoff_loop loan_amount r emi extra_monthly) = 1000%Z
  /\ forall v,
      future_value_monthly_sip
        extra_monthly (if recession_shock then 5 else expected_return) n = Ok v ->
      exists d,
        prepay_vs_invest loan_amount r emi n extra_monthly expected_return
                         recession_shock = Ok d
        /\ loan_closes_in d = 1000%Z
        /\ fv d = v.
Proof.
  intros Hpos.
  destruct (payoff_loop_exit loan_amount r emi extra_monthly) as [_ Hcap].
  specialize (Hcap Hpos). split; [exact Hcap|].
  intros v Hv. unfold prepay_vs_invest. rewrite Hv. cbn [bind].
  eexists. split; [reflexivity|]. cbn [loan_closes_in fv]. auto.
Qed.

Lemma cap_exhaustion_is_an_ordinary_result_witness :
  months (payoff_loop 4095 1 4096 (- (4096))) = 1000%Z
  /\ forall v,
      future_value_monthly_sip (- (4096)) 12 12 = Ok v ->
      exists d,
        prepay_vs_invest 4095 1 4096 12 (- (4096)) 12 false = Ok d
        /\ loan_closes_in d = 1000%Z
        /\ fv d = v.
Proof.
  apply (cap_exhaustion_is_an_ordinary_result 4095 1 4096 12 (- (4096)) 12 false).
  vm_compute. reflexivity.
Defined.

(** C4 (as stated) fails: on the 500000 loan at 10% over five years, an
    extra payment of -7000 leaves a monthly payment below the interest of
    the first month; the balance never falls under the principal, the loop
    stops at the cap, and the tab returns 1000 months like any other
    pay-off time. *)
Lemma decision_tab_silent_cap :
  (exists emi n r,
      calculate_emi 500000 10 5 = Ok (emi, n, r)
      /\ 0 < balance (payoff_loop 500000 r emi (- (7000))))
  /\ exists d,
      decision_tab 500000 10 5 (- (7000)) 12 false = Ok d
      /\ loan_closes_in d = 1000%Z.
Proof.
  eassert (Hemi : calculate_emi 500000 10 5 = Ok (_, _, _))
    by (vm_compute; reflexivity).
  match type of Hemi with
  | _ = Ok (?e, _, ?r) =>
      assert (Hr : 0 <= r) by discriminate;
      assert (Hpay : e + - (7000) <= 500000 * r) by (vm_compute; discriminate);
      destruct (payoff_loop_no_progress 500000 r e (- (7000)) Hr eq_refl Hpay)
        as [Hm Hb]
  end.
  split.
  - do 3 eexists. split; [exact Hemi|].
    eapply Qlt_le_trans; [|exact Hb]. reflexivity.
  - unfold decision_tab. rewrite Hemi. cbn [bind].
    unfold prepay_vs_invest.
    destruct (future_value_monthly_sip_returns (- (7000)) 12 60 ltac:(lia))
      as [v Hv].
    rewrite Hv. cbn [bind].
    eexists. split; [reflexivity|]. cbn [loan_closes_in]. exact Hm.
Qed.

(** *** The loop without extra payment follows the schedule *)

Lemma loop_after_S k r emi extra_monthly s :
  loop_after (S k) r emi extra_monthly s
  = if loop_cond s
    then loop_after k r emi extra_monthly (loop_body r emi extra_monthly s)
    else None.
Proof. reflexivity. Qed.

Lemma loop_after_snoc r emi extra_monthly : forall k s,
  loop_after (S k) r emi extra_monthly s
  = match loop_after k r emi extra_monthly s with
    | Some s' => if loop_cond s'
                 then Some (loop_body r emi extra_monthly s')
                 else None
    | None => None
    end.
Proof.
  induction k as [| k IH]; intros s.
  - rewrite loop_after_S. cbn [loop_after]. reflexivity.
  - rewrite (loop_after_S (S k) r emi extra_monthly s),
      (loop_after_S k r emi extra_monthly s).
    destruct (loop_cond s); [apply IH | reflexivity].
Qed.

Lemma while_loop_after r emi extra_monthly : forall k s s' fuel,
  loop_after k r emi extra_monthly s = Some s' ->
  while (k + fuel) loop_cond (loop_body r emi extra_monthly) s
  = while fuel loop_cond (loop_body r emi extra_monthly) s'.
Proof.
  induction k as [| k IH]; intros s s' fuel H.
  - cbn [loop_after] in H. inversion H. reflexivity.
  - rewrite loop_after_S in H.
    destruct (loop_cond s) eqn:E; [|discriminate].
    cbn [plus while]. rewrite E. apply IH. exact H.
Qed.

Section Schedule.

Variables (P r emi x : Q) (n : nat).
Hypothesis HP : 0 < P.
Hypothesis Hx : 1 < x.
Hypothesis Hr : 1 + r == x.
Hypothesis Hn : (0 < n)%nat.
Hypothesis Hcap : (Z.of_nat n <= 1000)%Z.
Hypothesis Hemi :
  emi == P * (x - 1) * x ^ Z.of_nat n / (x ^ Z.of_nat n - 1).

Lemma schedule_power_gt_1 : 1 < x ^ Z.of_nat n.
Proof. apply Qpower_1_lt; [exact Hx | lia]. Qed.

Lemma scheduled_balance_0 : scheduled_balance P x n 0 == P.
Proof.
  unfold scheduled_balance. pose proof schedule_power_gt_1.
  change (x ^ Z.of_nat 0) with 1. field. lra.
Qed.

Lemma scheduled_balance_n : scheduled_balance P x n n == 0.
Proof.
  unfold scheduled_balance. pose proof schedule_power_gt_1.
  field. lra.
Qed.

Lemma scheduled_balance_succ k :
  scheduled_balance P x n (S k) == scheduled_balance P x n k * (1 + r) - emi.
Proof.
  unfold scheduled_balance. pose proof schedule_power_gt_1.
  rewrite Hemi, Hr, Nat2Z.inj_succ, <- Z.add_1_r.
  rewrite Qpower_plus by lra.
  change (x ^ 1) with x.
  field. lra.
Qed.

Lemma scheduled_balance_pos k :
  (k < n)%nat -> 0 < scheduled_balance P x n k.
Proof.
  intros Hk. unfold scheduled_balance. pose proof schedule_power_gt_1.
  assert (Hlt : x ^ Z.of_nat k < x ^ Z.of_nat n)
    by (apply Qpower_lt_compat_l; [lia | exact Hx]).
  apply Qlt_shift_div_l; [lra|].
  rewrite Qmult_0_l. apply Qmult_lt_0_compat; lra.
Qed.

(** The loop performs the first [n] iterations, and the balance it holds
    after [k] of them is the scheduled one. *)
Lemma loop_after_schedule k :
  (k <= n)%nat ->
  exists s, loop_after k r emi 0 (loop_init P) = Some s
            /\ months s = Z.of_nat k
            /\ balance s == scheduled_balance P x n k.
Proof.
  induction k as [| k IH]; intros Hk.
  - exists (loop_init P). split; [reflexivity|]. split; [reflexivity|].
    cbn [loop_init balance]. symmetry. apply scheduled_balance_0.
  - destruct (IH ltac:(lia)) as [s [Hs [Hm Hb]]].
    rewrite loop_after_snoc, Hs.
    assert (E : loop_cond s = true).
    { unfold loop_cond. apply andb_true_intro. split.
      - apply PyFacts.gtb_true. rewrite Hb.
        apply scheduled_balance_pos. lia.
      - apply Z.ltb_lt. lia. }
    rewrite E. eexists. split; [reflexivity|]. split.
    + unfold loop_body. cbn [months]. lia.
    + rewrite loop_body_balance, Hb. symmetry.
      apply scheduled_balance_succ.
Qed.

(** With no extra payment the loop stops after exactly [n] iterations, on
    a zero balance. *)
Lemma payoff_loop_schedule :
  months (payoff_loop P r emi 0) = Z.of_nat n
  /\ balance (payoff_loop P r emi 0) == 0.
Proof.
  destruct (loop_after_schedule n (Nat.le_refl n)) as [s [Hs [Hm Hb]]].
  assert (Hstop : payoff_loop P r emi 0 = s).
  { unfold payoff_loop.
    replace 1000%nat with (n + (1000 - n))%nat by lia.
    rewrite (while_loop_after _ _ _ _ _ _ _ Hs).
    assert (E : loop_cond s = false).
    { unfold loop_cond.
      replace (Py.gtb (balance s) 0) with false; [reflexivity|].
      symmetry. apply PyFacts.gtb_false.
      rewrite Hb, scheduled_balance_n. apply Qle_refl. }
    destruct (1000 - n)%nat; cbn [while]; [reflexivity|].
    rewrite E. reflexivity. }
  rewrite Hstop. split; [exact Hm|].
  rewrite Hb. apply scheduled_balance_n.
Qed.

End Schedule.

(** On every loan with a positive principal, a positive rate and a tenure
    of at most 1000 months, the pay-down loop without extra payment takes
    as many iterations as the schedule has periods. *)
Lemma zero_extra_payment_schedule P rate years :
  0 < P -> 0 < rate -> (0 < years)%Z -> (years * 12 <= 1000)%Z ->
  exists emi r,
    calculate_emi P rate years = Ok (emi, (years * 12)%Z, r)
    /\ months (payoff_loop P r emi 0) = (years * 12)%Z
    /\ balance (payoff_loop P r emi 0) == 0.
Proof.
  intros HP Hrate Hyears Hcap.
  destruct (calculate_emi_value P rate years ltac:(lra) Hyears)
    as [emi [Hemi [_ Hnz]]].
  destruct Hnz as [Hgt Hval]; [lra|].
  exists emi, (Py.div_lit rate (Py.of_int (12 * 100))).
  split; [exact Hemi|].
  set (n := Z.to_nat (years * 12)).
  assert (Hnn : Z.of_nat n = (years * 12)%Z) by (unfold n; apply Z2Nat.id; lia).
  rewrite <- Hnn.
  apply (payoff_loop_schedule
           P (Py.div_lit rate (Py.of_int (12 * 100))) emi
           (1 + rate * (1 # 1200)) n).
  - exact HP.
  - lra.
  - rewrite periodic_rate_eq. reflexivity.
  - lia.
  - lia.
  - rewrite Hnn, Hval. field. lra.
Qed.

(** C8.  On the 500000 loan at 10% over five years [calculate_emi] gives
    60 periods, and with an extra payment of 0 the pay-down loop stops
    after exactly 60 iterations, the balance being then zero; the decision
    tab reports 60 months whatever the expected return. *)
Theorem zero_extra_payment_follows_schedule :
  (exists emi r,
      calculate_emi 500000 10 5 = Ok (emi, 60%Z, r)
      /\ months (payoff_loop 500000 r emi 0) = 60%Z
      /\ balance (payoff_loop 500000 r emi 0) == 0)
  /\ forall (expected_return : Q) (recession_shock : bool),
      exists d,
        decision_tab 500000 10 5 0 expected_return recession_shock = Ok d
        /\ loan_closes_in d = 60%Z.
Proof.
  destruct (zero_extra_payment_schedule 500000 10 5)
    as [emi [r [Hemi [Hm Hb]]]]; try reflexivity; [discriminate|].
  change (5 * 12)%Z with 60%Z in Hemi, Hm.
  split.
  - exists emi, r. split; [exact Hemi|]. split; assumption.
  - intros expected_return recession_shock.
    unfold decision_tab. rewrite Hemi. cbn [bind].
    unfold prepay_vs_invest.
    destruct (future_value_monthly_sip_returns
                0 (if recession_shock then 5 else expected_return) 60
                ltac:(lia)) as [v Hv].
    rewrite Hv. cbn [bind].
    eexists. split; [reflexivity|]. cbn [loan_closes_in]. exact Hm.
Qed.

(** ** The verdict *)

(** C10.  Whenever the decision tab returns, the future value it reports
    is that of the extra payment invested over the whole tenure of
    [years * 12] months, at the expected return in force (5 after the
    recession button), whatever the pay-off time found by the loop; and
    the verdict is "investing wins" exactly when that future value is
    strictly greater than the interest saved. *)
Theorem verdict_compares_full_tenure_investment
        (loan_amount interest_rate : Q) (remaining_years : Z)
        (extra_monthly expected_return : Q) (recession_shock : bool)
        (d : decision) :
  decision_tab loan_amount interest_rate remaining_years
               extra_monthly expected_return recession_shock = Ok d ->
  future_value_monthly_sip
    extra_monthly (if recession_shock then 5 else expected_return)
    (remaining_years * 12) = Ok (fv d)
  /\ (decision_verdict d = InvestingWins <-> prepay_interest_saved d < fv d)
  /\ (decision_verdict d = PrepayingWins <-> fv d <= prepay_interest_saved d).
Proof.
  unfold decision_tab.
  destruct (calculate_emi loan_amount interest_rate remaining_years)
    as [[[emi n] r] | e] eqn:E; cbn [bind]; [|discriminate].
  destruct (calculate_emi_shape _ _ _ _ _ _ E) as [Hn _]. subst n.
  unfold prepay_vs_invest.
  destruct (future_value_monthly_sip _ _ _) as [v | e] eqn:Ev;
    cbn [bind]; [|discriminate].
  intros H. inversion H; subst d; clear H.
  cbn [fv decision_verdict prepay_interest_saved].
  split; [reflexivity|].
  destruct (Py.gtb v _) eqn:G.
  - apply PyFacts.gtb_true in G. split; split.
    + intros _. exact G.
    + intros _. reflexivity.
    + discriminate.
    + intros Hle. exfalso. apply (Qlt_not_le _ _ G). exact Hle.
  - apply PyFacts.gtb_false in G. split; split.
    + discriminate.
    + intros Hlt. exfalso. apply (Qlt_not_le _ _ Hlt). exact G.
    + intros _. exact G.
    + intros _. reflexivity.
Qed.

Lemma verdict_compares_full_tenure_investment_witness :
  exists d,
    decision_tab 120000 10 1 5000 12 false = Ok d
    /\ future_value_monthly_sip 5000 12 (1 * 12) = Ok (fv d)
    /\ (decision_verdict d = InvestingWins <-> prepay_interest_saved d < fv d)
    /\ (decision_verdict d = PrepayingWins <-> fv d <= prepay_interest_saved d).
Proof.
  eexists. split.
  - vm_compute. reflexivity.
  - apply (verdict_compares_full_tenure_investment 120000 10 1 5000 12 false).
    vm_compute. reflexivity.
Defined.

(** ** The sweeps of the case scenarios *)

Lemma mapM_nth_error {A B : Type} (f : A -> result B) :
  forall l l', mapM f l = Ok l' ->
  forall i x, nth_error l i = Some x ->
  exists y, nth_error l' i = Some y /\ f x = Ok y.
Proof.
  induction l as [| a l IH]; intros l' H i x Hi.
  - destruct i; discriminate.
  - cbn [mapM] in H.
    destruct (f a) as [b | e] eqn:Ea; cbn [bind] in H; [|discriminate].
    destruct (mapM f l) as [bs | e] eqn:El; cbn [bind] in H; [|discriminate].
    inversion H; subst l'; clear H.
    destruct i as [| i]; cbn [nth_error] in *.
    + inversion Hi; subst a. eauto.
    + apply (IH bs eq_refl i x Hi).
Qed.

(** One cell of a sweep is the single-point differential at the swept
    values: the number of periods does not depend on the rate, and the
    present value of the rent, computed once, is the one the single-point
    evaluation computes again. *)
Lemma sweep_cell_is_buy_vs_rent
      loan_amount remaining_years rent discount_rate pv_rent g rate :
  npv_stream rent discount_rate (remaining_years * 12) = Ok pv_rent ->
  sweep_cell loan_amount remaining_years discount_rate
             (remaining_years * 12) pv_rent g rate
  = buy_vs_rent loan_amount rate remaining_years rent discount_rate g.
Proof.
  intros Hrent. unfold sweep_cell, buy_vs_rent.
  destruct (calculate_emi loan_amount rate remaining_years)
    as [[[emi n] r] | e] eqn:E; cbn [bind]; [|reflexivity].
  destruct (calculate_emi_shape _ _ _ _ _ _ E) as [-> _].
  destruct (npv_stream emi discount_rate (remaining_years * 12));
    cbn [bind]; [|reflexivity].
  rewrite Hrent. cbn [bind]. reflexivity.
Qed.

Lemma mapM_ext {A B : Type} (f g : A -> result B) l :
  (forall x, f x = g x) -> mapM f l = mapM g l.
Proof.
  intros H. induction l as [| a l IH]; [reflexivity|].
  cbn [mapM]. rewrite H, IH. reflexivity.
Qed.

(** What [case_scenarios] returns, in terms of the single-point
    differential. *)
Lemma case_scenarios_inv
      loan_amount interest_rate remaining_years rent discount_rate
      price_growth c :
  case_scenarios loan_amount interest_rate remaining_years rent discount_rate
                 price_growth = Ok c ->
  buy_vs_rent loan_amount interest_rate remaining_years rent discount_rate
              price_growth = Ok (diff c)
  /\ mapM (fun rate =>
             buy_vs_rent loan_amount rate remaining_years rent discount_rate
                         price_growth) rates = Ok (vals c)
  /\ mapM (fun g =>
             mapM (fun rate =>
                     buy_vs_rent loan_amount rate remaining_years rent
                                 discount_rate g) rate_range)
          growth_range = Ok (heat c).
Proof.
  unfold case_scenarios, buy_vs_rent at 1.
  destruct (calculate_emi loan_amount interest_rate remaining_years)
    as [[[emi n] r] | e] eqn:E; cbn [bind]; [|discriminate].
  destruct (calculate_emi_shape _ _ _ _ _ _ E) as [-> _].
  destruct (npv_stream emi _ _) as [pv_buy | e]; cbn [bind]; [|discriminate].
  destruct (npv_stream rent _ _) as [pv_rent | e] eqn:Hrent;
    cbn [bind]; [|discriminate].
  destruct (Py.pow _ _) as [gp | e]; cbn [bind]; [|discriminate].
  destruct (Py.pow _ _) as [dp | e]; cbn [bind]; [|discriminate].
  destruct (Py.div _ _) as [pv_resale | e]; cbn [bind]; [|discriminate].
  rewrite (mapM_ext _ _ rates
             (fun rate => sweep_cell_is_buy_vs_rent
                            loan_amount remaining_years rent discount_rate
                            pv_rent price_growth rate Hrent)).
  rewrite (mapM_ext _ _ growth_range
             (fun g => mapM_ext _ _ rate_range
                (fun rate => sweep_cell_is_buy_vs_rent
                               loan_amount remaining_years rent discount_rate
                               pv_rent g rate Hrent))).
  destruct (mapM _ rates) as [vs | e]; cbn [bind]; [|discriminate].
  destruct (mapM _ growth_range) as [hs | e]; cbn [bind]; [|discriminate].
  intros H. inversion H; subst c; clear H. cbn [diff vals heat]. auto.
Qed.

(** *** The sweeps are computed whenever the headline differential is *)

Lemma mapM_returns {A B : Type} (f : A -> result B) l :
  Forall (fun x => returns (f x)) l -> returns (mapM f l).
Proof.
  induction 1 as [| a l [b Hb] _ [bs Hbs]].
  - exists []. reflexivity.
  - exists (b :: bs). cbn [mapM]. rewrite Hb, Hbs. reflexivity.
Qed.

Lemma div_returns_indep a b d : returns (Py.div a d) -> returns (Py.div b d).
Proof.
  unfold returns, Py.div. destruct (Qeq_bool d 0); [|eauto].
  intros [x H]. discriminate.
Qed.

Lemma npv_stream_returns_indep payment payment' discount_rate months :
  returns (npv_stream payment discount_rate months) ->
  returns (npv_stream payment' discount_rate months).
Proof.
  unfold npv_stream. destruct (Py.eqb _ 0); [unfold returns; eauto|].
  destruct (Py.pow _ _) as [p | e]; cbn [bind].
  - apply div_returns_indep.
  - intros [x H]. discriminate.
Qed.

Lemma rates_positive : Forall (fun rate => 0 < rate) rates.
Proof.
  apply Forall_forall. intros rate Hin.
  assert (H : forallb (fun rate => Py.gtb rate 0) rates = true)
    by (vm_compute; reflexivity).
  apply PyFacts.gtb_true.
  exact (proj1 (forallb_forall _ _) H rate Hin).
Qed.

Lemma rate_range_positive : Forall (fun rate => 0 < rate) rate_range.
Proof.
  apply Forall_forall. intros rate Hin.
  assert (H : forallb (fun rate => Py.gtb rate 0) rate_range = true)
    by (vm_compute; reflexivity).
  apply PyFacts.gtb_true.
  exact (proj1 (forallb_forall _ _) H rate Hin).
Qed.

Lemma growth_range_nonnegative : Forall (fun g => 0 <= g) growth_range.
Proof.
  apply Forall_forall. intros g Hin.
  assert (H : forallb (fun g => negb (Py.gtb 0 g)) growth_range = true)
    by (vm_compute; reflexivity).
  apply PyFacts.gtb_false. apply negb_true_iff.
  exact (proj1 (forallb_forall _ _) H g Hin).
Qed.

Lemma case_scenarios_returns
      loan_amount interest_rate remaining_years rent discount_rate
      price_growth :
  returns (buy_vs_rent loan_amount interest_rate remaining_years rent
                       discount_rate price_growth) ->
  returns (case_scenarios loan_amount interest_rate remaining_years rent
                          discount_rate price_growth).
Proof.
  intros [v Hv]. unfold buy_vs_rent in Hv. unfold case_scenarios.
  destruct (calculate_emi loan_amount interest_rate remaining_years)
    as [[[emi n] r] | e] eqn:E; cbn [bind] in *; [|discriminate].
  destruct (calculate_emi_shape _ _ _ _ _ _ E) as [-> _].
  assert (Hyears : remaining_years <> 0%Z).
  { intros Hz. assert (Hraise : raises (calculate_emi loan_amount interest_rate
                                                       remaining_years))
      by (apply calculate_emi_raises_iff; left; exact Hz).
    destruct Hraise as [e He]. congruence. }
  destruct (npv_stream emi _ _) as [pv_buy | e] eqn:Hbuy;
    cbn [bind] in *; [|discriminate].
  destruct (npv_stream rent _ _) as [pv_rent | e] eqn:Hrent;
    cbn [bind] in *; [|discriminate].
  destruct (Py.pow (1 +! Py.div_lit price_growth 100) _) as [gp | e] eqn:Hgp;
    cbn [bind] in *; [|discriminate].
  destruct (Py.pow (1 +! Py.div_lit discount_rate 100) _) as [dp | e] eqn:Hdp;
    cbn [bind] in *; [|discriminate].
  destruct (Py.div _ dp) as [pv_resale | e] eqn:Hdiv;
    cbn [bind] in *; [|discriminate].
  assert (Hcell : forall g rate,
             returns (Py.pow (1 +! Py.div_lit g 100) remaining_years) ->
             0 < rate ->
             returns (sweep_cell loan_amount remaining_years discount_rate
                                 (remaining_years * 12) pv_rent g rate)).
  { intros g rate [gp' Hgp'] Hrate. unfold sweep_cell.
    destruct (calculate_emi_returns loan_amount rate remaining_years)
      as [emi_t Hemi_t].
    { intros [H | [[H _] | H]]; [contradiction | lra | lra]. }
    rewrite Hemi_t. cbn [bind].
    destruct (npv_stream_returns_indep emi emi_t discount_rate
                                       (remaining_years * 12))
      as [pv_buy_t Hbuy_t]; [rewrite Hbuy; eexists; reflexivity|].
    rewrite Hbuy_t, Hgp', Hdp. cbn [bind].
    destruct (div_returns_indep (loan_amount *! gp) (loan_amount *! gp') dp)
      as [pv_resale_t Hres_t]; [rewrite Hdiv; eexists; reflexivity|].
    rewrite Hres_t. cbn [bind]. eexists. reflexivity. }
  destruct (mapM_returns
              (sweep_cell loan_amount remaining_years discount_rate
                          (remaining_years * 12) pv_rent price_growth) rates)
    as [vs Hvs].
  { eapply Forall_impl; [|exact rates_positive].
    intros rate Hrate. apply Hcell; [|exact Hrate].
    rewrite Hgp. eexists. reflexivity. }
  rewrite Hvs. cbn [bind].
  destruct (mapM_returns
              (fun g => mapM (sweep_cell loan_amount remaining_years
                                         discount_rate (remaining_years * 12)
                                         pv_rent g) rate_range) growth_range)
    as [hs Hhs].
  { eapply Forall_impl; [|exact growth_range_nonnegative].
    intros g Hg. apply mapM_returns.
    eapply Forall_impl; [|exact rate_range_positive].
    intros rate Hrate. apply Hcell; [|exact Hrate].
    rewrite PyFacts.pow_ok_base; [eexists; reflexivity|].
    py_norm. intros H.
    assert (0 <= g / 100) by (apply Qle_shift_div_l; [reflexivity | lra]).
    lra. }
  rewrite Hhs. cbn [bind]. eexists. reflexivity.
Qed.

(** C6.  Whenever the case scenarios are computed, the cell of the heatmap
    at the [i]-th sampled growth [g] and the [j]-th sampled rate is the
    value of one evaluation of the buy-versus-rent differential with the
    loan rate set to that rate, the price growth set to [g] and every other
    input unchanged. *)
Theorem heatmap_cell_is_single_point_differential
        loan_amount interest_rate remaining_years rent discount_rate
        price_growth c :
  case_scenarios loan_amount interest_rate remaining_years rent discount_rate
                 price_growth = Ok c ->
  forall i j g rate,
    nth_error growth_range i = Some g ->
    nth_error rate_range j = Some rate ->
    exists v,
      cell (heat c) i j = Some v
      /\ buy_vs_rent loan_amount rate remaining_years rent discount_rate g
         = Ok v.
Proof.
  intros Hc i j g rate Hg Hrate.
  destruct (case_scenarios_inv _ _ _ _ _ _ _ Hc) as [_ [_ Hheat]].
  destruct (mapM_nth_error _ _ _ Hheat i g Hg) as [row [Hrow Hmap]].
  destruct (mapM_nth_error _ _ _ Hmap j rate Hrate) as [v [Hv Hval]].
  exists v. split; [|exact Hval].
  unfold cell. rewrite Hrow. exact Hv.
Qed.

Lemma heatmap_cell_is_single_point_differential_witness :
  exists c g rate v,
    case_scenarios 500000 10 5 8000 8 3 = Ok c
    /\ nth_error growth_range 3 = Some g
    /\ nth_error rate_range 4 = Some rate
    /\ cell (heat c) 3 4 = Some v
    /\ buy_vs_rent 500000 rate 5 8000 8 g = Ok v.
Proof.
  destruct (case_scenarios_returns 500000 10 5 8000 8 3) as [c Hc].
  { eexists. vm_compute. reflexivity. }
  eassert (Hg : nth_error growth_range 3 = Some _)
    by (vm_compute; reflexivity).
  eassert (Hrate : nth_error rate_range 4 = Some _)
    by (vm_compute; reflexivity).
  destruct (heatmap_cell_is_single_point_differential
              _ _ _ _ _ _ _ Hc 3%nat 4%nat _ _ Hg Hrate) as [v [Hv Hb]].
  exact (ex_intro _ c (ex_intro _ _ (ex_intro _ _ (ex_intro _ v
           (conj Hc (conj Hg (conj Hrate (conj Hv Hb)))))))).
Defined.

(** The same holds for the rate sweep of the graph, and the headline
    differential is the single-point evaluation at the inputs. *)
Lemma rate_sweep_is_single_point_differential
      loan_amount interest_rate remaining_years rent discount_rate
      price_growth c :
  case_scenarios loan_amount interest_rate remaining_years rent discount_rate
                 price_growth = Ok c ->
  buy_vs_rent loan_amount interest_rate remaining_years rent discount_rate
              price_growth = Ok (diff c)
  /\ forall j rate,
      nth_error rates j = Some rate ->
      exists v,
        nth_error (vals c) j = Some v
        /\ buy_vs_rent loan_amount rate remaining_years rent discount_rate
                       price_growth = Ok v.
Proof.
  intros Hc.
  destruct (case_scenarios_inv _ _ _ _ _ _ _ Hc) as [Hd [Hvals _]].
  split; [exact Hd|].
  intros j rate Hj. apply (mapM_nth_error _ _ _ Hvals j rate Hj).
Qed.

(** The samples of the heatmap axes. *)
Example rate_range_samples :
  length rate_range = 12%nat /\ length growth_range = 12%nat
  /\ nth_error rate_range 0 = Some 5 /\ nth_error rate_range 11 = Some 15
  /\ nth_error growth_range 0 = Some 0 /\ nth_error growth_range 11 = Some 10.
Proof. vm_compute. repeat split; reflexivity. Qed.

(** ** The scenarios of the specification *)

(** Scenario 1: 500000 at 10% over five years. *)
Example scenario_standard_loan :
  exists emi r,
    calculate_emi 500000 10 5 = Ok (emi, 60%Z, r)
    /\ 10623 < emi < 10624
    /\ 137411 < emi * 60 - 500000 < 137412.
Proof.
  do 2 eexists. split; [vm_compute; reflexivity|].
  repeat split; reflexivity.
Qed.

(** Scenario 2: the same loan at a zero rate. *)
Example scenario_zero_rate_loan :
  exists emi r,
    calculate_emi 500000 0 5 = Ok (emi, 60%Z, r) /\ emi == 500000 / 60.
Proof.
  do 2 eexists. split; [vm_compute; reflexivity | reflexivity].
Qed.

(** Scenario 3: 50000 prepaid after two years, with the approximate
    logarithm. *)
Example scenario_prepayment :
  exists m,
    prepayment_tab ln_approx 500000 10 5 2 50000 = Ok (Some m)
    /\ new_n m = 30%Z /\ months_saved m = 6%Z /\ 0 < interest_saved m.
Proof.
  eexists. split; [vm_compute; reflexivity|].
  repeat split; reflexivity.
Qed.

(** Scenario 4: a level stream discounted at a zero rate. *)
Example scenario_undiscounted_stream : npv_stream 10000 0 12 = Ok 120000.
Proof. reflexivity. Qed.

(** * Further properties of the script *)

(** ** The two valuation functions *)

Lemma one_plus_periodic_rate rate :
  1 +! Py.div_lit rate (Py.of_int (12 * 100)) == 1 + rate * (1 # 1200).
Proof. rewrite PyFacts.add_eq, periodic_rate_eq. reflexivity. Qed.

(** [future_value_monthly_sip] fails exactly when the annual return is
    -1200 (a periodic return of -1) and the number of months is negative;
    the failure is a [ZeroDivisionError] raised by the power. *)
Theorem future_value_monthly_sip_raises_iff pmt annual_return months :
  (raises (future_value_monthly_sip pmt annual_return months)
   <-> annual_return == - (1200) /\ (months < 0)%Z)
  /\ forall e, future_value_monthly_sip pmt annual_return months = Raise e ->
               e = ZeroDivisionError.
Proof.
  unfold future_value_monthly_sip, raises.
  pose proof (periodic_rate_eq annual_return) as Hr.
  pose proof (one_plus_periodic_rate annual_return) as Hq.
  set (r := Py.div_lit annual_return (Py.of_int (12 * 100))) in *.
  destruct (Py.eqb r 0) eqn:E.
  - apply PyFacts.eqb_true in E. split.
    + split; [intros [e He]; discriminate | intros [H _]; lra].
    + intros e He. discriminate.
  - apply PyFacts.eqb_false in E.
    destruct (Qeq_dec (1 +! r) 0) as [H0 | H0];
      [destruct (Z_lt_le_dec months 0) as [Hm | Hm]|].
    + rewrite PyFacts.pow_raise by assumption. cbn [bind]. split.
      * split; [intros _; split; [lra | assumption] | eauto].
      * intros e He. congruence.
    + rewrite PyFacts.pow_ok_exp by assumption. cbn [bind].
      rewrite PyFacts.div_ok by assumption. split.
      * split; [intros [e He]; discriminate | intros [_ H]; lia].
      * intros e He. discriminate.
    + rewrite PyFacts.pow_ok_base by assumption. cbn [bind].
      rewrite PyFacts.div_ok by assumption. split.
      * split; [intros [e He]; discriminate | intros [H _]; exfalso; lra].
      * intros e He. discriminate.
Qed.

(** The value of [future_value_monthly_sip] for a month count that is not
    negative, in both branches. *)
Lemma future_value_monthly_sip_value pmt annual_return months :
  (0 <= months)%Z ->
  exists v,
    future_value_monthly_sip pmt annual_return months = Ok v
    /\ let r := annual_return * (1 # 1200) in
       (r == 0 -> v == pmt * inject_Z months)
       /\ (~ r == 0 -> v == pmt * ((1 + r) ^ months - 1) / r).
Proof.
  intros Hm. unfold future_value_monthly_sip.
  pose proof (periodic_rate_eq annual_return) as Hr.
  pose proof (one_plus_periodic_rate annual_return) as Hq.
  set (r := Py.div_lit annual_return (Py.of_int (12 * 100))) in *.
  destruct (Py.eqb r 0) eqn:E.
  - apply PyFacts.eqb_true in E. eexists. split; [reflexivity|].
    cbn zeta. split.
    + intros _. py_norm. reflexivity.
    + intros H. exfalso. apply H. rewrite <- Hr. exact E.
  - apply PyFacts.eqb_false in E.
    rewrite PyFacts.pow_ok_exp by assumption. cbn [bind].
    rewrite PyFacts.div_ok by assumption.
    eexists. split; [reflexivity|]. cbn zeta. split.
    + intros H. exfalso. apply E. rewrite Hr. exact H.
    + intros _. rewrite Qred_correct, PyFacts.mul_eq, PyFacts.sub_eq,
        Qred_correct, Hq, Hr. reflexivity.
Qed.

(** The future value is that of a deposit made at the end of every month:
    nothing after zero months, and each further month adds the return on
    what has accumulated and one more payment.  The zero-rate branch obeys
    the same recurrence. *)
Theorem future_value_monthly_sip_recurrence pmt annual_return months :
  (0 <= months)%Z ->
  (exists v0, future_value_monthly_sip pmt annual_return 0 = Ok v0 /\ v0 == 0)
  /\ exists v v',
      future_value_monthly_sip pmt annual_return months = Ok v
      /\ future_value_monthly_sip pmt annual_return (months + 1) = Ok v'
      /\ v' == v * (1 + annual_return * (1 # 1200)) + pmt.
Proof.
  intros Hm.
  destruct (future_value_monthly_sip_value pmt annual_return 0 ltac:(lia))
    as [v0 [H0 [Hz0 Hn0]]].
  destruct (future_value_monthly_sip_value pmt annual_return months Hm)
    as [v [Hv [Hz Hn]]].
  destruct (future_value_monthly_sip_value pmt annual_return (months + 1)
                                           ltac:(lia))
    as [v' [Hv' [Hz' Hn']]].
  cbn zeta in *.
  destruct (Qeq_dec (annual_return * (1 # 1200)) 0) as [Hr | Hr].
  - split.
    + exists v0. split; [exact H0|]. rewrite (Hz0 Hr).
      change (inject_Z 0) with 0. ring.
    + exists v, v'. repeat split; try assumption.
      rewrite (Hz' Hr), (Hz Hr), Hr, inject_Z_plus.
      change (inject_Z 1) with 1. ring.
  - split.
    + exists v0. split; [exact H0|]. rewrite (Hn0 Hr).
      change ((1 + annual_return * (1 # 1200)) ^ 0) with 1. field. lra.
    + exists v, v'. repeat split; try assumption.
      rewrite (Hn' Hr), (Hn Hr).
      rewrite Qpower_plus' by lia.
      change ((1 + annual_return * (1 # 1200)) ^ 1)
        with (1 + annual_return * (1 # 1200)).
      field. lra.
Qed.

Lemma future_value_monthly_sip_recurrence_witness :
  (exists v0, future_value_monthly_sip 5000 12 0 = Ok v0 /\ v0 == 0)
  /\ exists v v',
      future_value_monthly_sip 5000 12 60 = Ok v
      /\ future_value_monthly_sip 5000 12 (60 + 1) = Ok v'
      /\ v' == v * (1 + 12 * (1 # 1200)) + 5000.
Proof.
  apply (future_value_monthly_sip_recurrence 5000 12 60). discriminate.
Defined.

(** [npv_stream] fails exactly when the annual discount rate is -1200 (a
    periodic rate of -1) and the number of months is positive; the failure
    is a [ZeroDivisionError] raised by the negative power of zero. *)
Theorem npv_stream_raises_iff payment discount_rate months :
  (raises (npv_stream payment discount_rate months)
   <-> discount_rate == - (1200) /\ (0 < months)%Z)
  /\ forall e, npv_stream payment discount_rate months = Raise e ->
               e = ZeroDivisionError.
Proof.
  unfold npv_stream, raises.
  pose proof (periodic_rate_eq discount_rate) as Hr.
  pose proof (one_plus_periodic_rate discount_rate) as Hq.
  set (r := Py.div_lit discount_rate (Py.of_int (12 * 100))) in *.
  destruct (Py.eqb r 0) eqn:E.
  - apply PyFacts.eqb_true in E. split.
    + split; [intros [e He]; discriminate | intros [H _]; lra].
    + intros e He. discriminate.
  - apply PyFacts.eqb_false in E.
    destruct (Qeq_dec (1 +! r) 0) as [H0 | H0];
      [destruct (Z_lt_le_dec 0 months) as [Hm | Hm]|].
    + rewrite PyFacts.pow_raise by (auto; lia). cbn [bind]. split.
      * split; [intros _; split; [lra | assumption] | eauto].
      * intros e He. congruence.
    + rewrite PyFacts.pow_ok_exp by lia. cbn [bind].
      rewrite PyFacts.div_ok by assumption. split.
      * split; [intros [e He]; discriminate | intros [_ H]; lia].
      * intros e He. discriminate.
    + rewrite PyFacts.pow_ok_base by assumption. cbn [bind].
      rewrite PyFacts.div_ok by assumption. split.
      * split; [intros [e He]; discriminate | intros [H _]; exfalso; lra].
      * intros e He. discriminate.
Qed.

(** The value of [npv_stream] away from the rate -1200, in both branches. *)
Lemma npv_stream_value payment discount_rate months :
  ~ discount_rate == - (1200) ->
  exists v,
    npv_stream payment discount_rate months = Ok v
    /\ let r := discount_rate * (1 # 1200) in
       (r == 0 -> v == payment * inject_Z months)
       /\ (~ r == 0 -> v == payment * (1 - / (1 + r) ^ months) / r).
Proof.
  intros Hd. unfold npv_stream.
  pose proof (periodic_rate_eq discount_rate) as Hr.
  pose proof (one_plus_periodic_rate discount_rate) as Hq.
  set (r := Py.div_lit discount_rate (Py.of_int (12 * 100))) in *.
  destruct (Py.eqb r 0) eqn:E.
  - apply PyFacts.eqb_true in E. eexists. split; [reflexivity|].
    cbn zeta. split.
    + intros _. py_norm. reflexivity.
    + intros H. exfalso. apply H. rewrite <- Hr. exact E.
  - apply PyFacts.eqb_false in E.
    rewrite PyFacts.pow_ok_base by (rewrite Hq; lra). cbn [bind].
    rewrite PyFacts.div_ok by assumption.
    eexists. split; [reflexivity|]. cbn zeta. split.
    + intros H. exfalso. apply E. rewrite Hr. exact H.
    + intros _. rewrite Qred_correct, PyFacts.mul_eq, PyFacts.sub_eq,
        Qred_correct, Hq, Hr, Qpower_opp. reflexivity.
Qed.

(** The present value is the sum of the discounted payments: nothing for
    zero months, and one more month adds the payment discounted over that
    many months.  The zero-rate branch obeys the same recurrence. *)
Theorem npv_stream_recurrence payment discount_rate months :
  ~ discount_rate == - (1200) -> (0 <= months)%Z ->
  (exists v0, npv_stream payment discount_rate 0 = Ok v0 /\ v0 == 0)
  /\ exists v v',
      npv_stream payment discount_rate months = Ok v
      /\ npv_stream payment discount_rate (months + 1) = Ok v'
      /\ v' == v + payment / (1 + discount_rate * (1 # 1200)) ^ (months + 1).
Proof.
  intros Hd Hm.
  destruct (npv_stream_value payment discount_rate 0 Hd)
    as [v0 [H0 [Hz0 Hn0]]].
  destruct (npv_stream_value payment discount_rate months Hd)
    as [v [Hv [Hz Hn]]].
  destruct (npv_stream_value payment discount_rate (months + 1) Hd)
    as [v' [Hv' [Hz' Hn']]].
  cbn zeta in *.
  set (r := discount_rate * (1 # 1200)) in *.
  assert (Hx : ~ 1 + r == 0) by (unfold r; lra).
  destruct (Qeq_dec r 0) as [Hr | Hr].
  - split.
    + exists v0. split; [exact H0|]. rewrite (Hz0 Hr).
      change (inject_Z 0) with 0. ring.
    + exists v, v'. repeat split; try assumption.
      rewrite (Hz' Hr), (Hz Hr), Hr, inject_Z_plus.
      change (inject_Z 1) with 1.
      setoid_replace (1 + 0) with 1 by ring. rewrite Qpower_1.
      field.
  - split.
    + exists v0. split; [exact H0|]. rewrite (Hn0 Hr).
      change ((1 + r) ^ 0) with 1. field. exact Hr.
    + exists v, v'. repeat split; try assumption.
      rewrite (Hn' Hr), (Hn Hr).
      rewrite Qpower_plus by exact Hx.
      change ((1 + r) ^ 1) with (1 + r).
      assert (Hp : ~ (1 + r) ^ months == 0) by (apply Qpower_not_0; exact Hx).
      clearbody r. set (x := (1 + r) ^ months) in *. clearbody x.
      field. repeat split; assumption.
Qed.

Lemma npv_stream_recurrence_witness :
  (exists v0, npv_stream 8000 8 0 = Ok v0 /\ v0 == 0)
  /\ exists v v',
      npv_stream 8000 8 12 = Ok v
      /\ npv_stream 8000 8 (12 + 1) = Ok v'
      /\ v' == v + 8000 / (1 + 8 * (1 # 1200)) ^ (12 + 1).
Proof.
  apply (npv_stream_recurrence 8000 8 12); discriminate.
Defined.

(** At a discount rate that is not negative, a stream of payments that are
    not negative is worth between nothing and the plain sum of the
    payments. *)
Theorem npv_stream_bounds payment discount_rate months :
  0 <= payment -> 0 <= discount_rate -> (0 <= months)%Z ->
  exists v, npv_stream payment discount_rate months = Ok v
            /\ 0 <= v <= payment * inject_Z months.
Proof.
  intros Hp Hd Hm.
  rewrite <- (Z2Nat.id months Hm). generalize (Z.to_nat months) as k.
  assert (Hne : ~ discount_rate == - (1200)) by lra.
  induction k as [| k [v [Hv [Hlo Hhi]]]].
  - destruct (npv_stream_recurrence payment discount_rate 0 Hne ltac:(lia))
      as [[v0 [H0 Hz]] _].
    exists v0. split; [exact H0|]. rewrite Hz.
    change (inject_Z (Z.of_nat 0)) with 0. lra.
  - destruct (npv_stream_recurrence payment discount_rate (Z.of_nat k) Hne
                                    ltac:(lia))
      as [_ [w [w' [Hw [Hw' Hstep]]]]].
    rewrite Hv in Hw. inversion Hw; subst w; clear Hw.
    rewrite Nat2Z.inj_succ, <- Z.add_1_r.
    exists w'. split; [exact Hw'|].
    assert (Hx : 1 <= (1 + discount_rate * (1 # 1200)) ^ (Z.of_nat k + 1))
      by (apply Qpower_1_le; [lra | lia]).
    set (x := (1 + discount_rate * (1 # 1200)) ^ (Z.of_nat k + 1)) in *.
    assert (Hinc : 0 <= payment / x <= payment).
    { split.
      - apply Qle_shift_div_l; lra.
      - apply Qle_shift_div_r; [lra|].
        assert (0 <= payment * (x - 1)) by (apply Qmult_le_0_compat; lra).
        lra. }
    rewrite inject_Z_plus. change (inject_Z 1) with 1.
    rewrite Hstep. clearbody x. lra.
Qed.

Lemma npv_stream_bounds_witness :
  exists v, npv_stream 8000 8 12 = Ok v /\ 0 <= v <= 8000 * inject_Z 12.
Proof.
  apply (npv_stream_bounds 8000 8 12); discriminate.
Defined.

(** ** The closed form of the balance over the schedule *)

(** [remaining_balance] fails exactly when the periodic rate is zero, or
    is -1 with a negative month count; the failure is a
    [ZeroDivisionError]. *)
Theorem remaining_balance_raises_iff P r emi k :
  (raises (remaining_balance P r emi k)
   <-> r == 0 \/ (r == - (1) /\ (k < 0)%Z))
  /\ forall e, remaining_balance P r emi k = Raise e -> e = ZeroDivisionError.
Proof.
  destruct (Qeq_dec r 0) as [Hr | Hr].
  - rewrite (remaining_balance_rate_zero P r emi k Hr). split.
    + split; [auto | intros _; exists ZeroDivisionError; reflexivity].
    + intros e He. congruence.
  - unfold remaining_balance, raises.
    assert (Hq : 1 +! r == 1 + r) by apply PyFacts.add_eq.
    destruct (Qeq_dec (1 +! r) 0) as [H0 | H0];
      [destruct (Z_lt_le_dec k 0) as [Hk | Hk]|].
    + rewrite PyFacts.pow_raise by assumption. cbn [bind]. split.
      * split; [intros _; right; split; [lra | assumption] | eauto].
      * intros e He. congruence.
    + rewrite PyFacts.pow_ok_exp by assumption. cbn [bind].
      rewrite PyFacts.div_ok by assumption. cbn [bind]. split.
      * split; [intros [e He]; discriminate|].
        intros [H | [_ H]]; [contradiction | lia].
      * intros e He. discriminate.
    + rewrite PyFacts.pow_ok_base by assumption. cbn [bind].
      rewrite PyFacts.div_ok by assumption. cbn [bind]. split.
      * split; [intros [e He]; discriminate|].
        intros [H | [H _]]; [contradiction | exfalso; lra].
      * intros e He. discriminate.
Qed.

(** With the instalment of [calculate_emi], the closed form is the
    scheduled balance. *)
Lemma remaining_balance_scheduled P rate years (k : nat) :
  0 < rate -> (0 < years)%Z ->
  exists emi b,
    calculate_emi P rate years
    = Ok (emi, (years * 12)%Z, Py.div_lit rate (Py.of_int (12 * 100)))
    /\ remaining_balance P (Py.div_lit rate (Py.of_int (12 * 100))) emi
                         (Z.of_nat k) = Ok b
    /\ b == scheduled_balance P (1 + rate * (1 # 1200))
                              (Z.to_nat (years * 12)) k.
Proof.
  intros Hrate Hyears.
  destruct (calculate_emi_value P rate years ltac:(lra) Hyears)
    as [emi [Hemi [_ Hnz]]].
  destruct Hnz as [Hgt Hval]; [lra|].
  pose proof (periodic_rate_eq rate) as Hr.
  set (r := Py.div_lit rate (Py.of_int (12 * 100))) in *.
  destruct (remaining_balance_value P r emi (Z.of_nat k)) as [b [Hb Hbv]];
    [rewrite Hr; lra | lia |].
  exists emi, b. split; [exact Hemi|]. split; [exact Hb|].
  unfold scheduled_balance. rewrite Z2Nat.id by lia.
  rewrite Hbv, Hval, Hr.
  set (x := (1 + rate * (1 # 1200)) ^ (years * 12)) in *.
  set (y := (1 + rate * (1 # 1200)) ^ Z.of_nat k). clearbody x y.
  field. split; lra.
Qed.

(** On a loan with a positive principal, a positive rate and a positive
    tenure, the closed form of the balance, taken with the instalment of
    [calculate_emi], is zero at the last period, and before that it falls
    strictly from month to month, staying between nothing and the
    principal. *)
Theorem remaining_balance_amortises P rate years :
  0 < P -> 0 < rate -> (0 < years)%Z ->
  exists emi n r,
    calculate_emi P rate years = Ok (emi, n, r)
    /\ (exists b, remaining_balance P r emi n = Ok b /\ b == 0)
    /\ forall k, (0 <= k < n)%Z ->
       exists b b',
         remaining_balance P r emi k = Ok b
         /\ remaining_balance P r emi (k + 1) = Ok b'
         /\ 0 <= b' /\ b' < b /\ b <= P.
Proof.
  intros HP Hrate Hyears.
  set (n := Z.to_nat (years * 12)).
  assert (Hn : Z.of_nat n = (years * 12)%Z) by (unfold n; apply Z2Nat.id; lia).
  set (x := 1 + rate * (1 # 1200)).
  assert (Hx : 1 < x) by (unfold x; lra).
  assert (Hxn : 1 < x ^ Z.of_nat n) by (apply Qpower_1_lt; [exact Hx | lia]).
  destruct (remaining_balance_scheduled P rate years n Hrate Hyears)
    as [emi [bn [Hemi [Hbn Hvn]]]].
  exists emi, (years * 12)%Z, (Py.div_lit rate (Py.of_int (12 * 100))).
  split; [exact Hemi|]. split.
  - exists bn. split; [rewrite <- Hn; exact Hbn|].
    rewrite Hvn. fold n x. unfold scheduled_balance. field. lra.
  - intros k Hk.
    destruct (remaining_balance_scheduled P rate years (Z.to_nat k)
                                          Hrate Hyears)
      as [emi1 [b [Hemi1 [Hb Hv]]]].
    destruct (remaining_balance_scheduled P rate years (S (Z.to_nat k))
                                          Hrate Hyears)
      as [emi2 [b' [Hemi2 [Hb' Hv']]]].
    rewrite Hemi in Hemi1, Hemi2.
    inversion Hemi1; subst emi1. inversion Hemi2; subst emi2.
    rewrite Nat2Z.inj_succ, <- Z.add_1_r in Hb'.
    rewrite Z2Nat.id in Hb, Hb' by lia.
    exists b, b'. split; [exact Hb|]. split; [exact Hb'|].
    fold n x in Hv, Hv'. unfold scheduled_balance in Hv, Hv'.
    rewrite Nat2Z.inj_succ, <- Z.add_1_r, Z2Nat.id in Hv' by lia.
    rewrite Z2Nat.id in Hv by lia.
    assert (Hk0 : 1 <= x ^ k) by (apply Qpower_1_le; [lra | lia]).
    assert (Hk1 : x ^ k < x ^ (k + 1))
      by (apply Qpower_lt_compat_l; [lia | exact Hx]).
    assert (Hk2 : x ^ (k + 1) <= x ^ Z.of_nat n)
      by (apply Qpower_le_compat_l; [lia | lra]).
    set (xn := x ^ Z.of_nat n) in *. set (xk := x ^ k) in *.
    set (xk1 := x ^ (k + 1)) in *. clearbody xn xk xk1.
    assert (Hd : 0 < / (xn - 1)) by (apply Qinv_lt_0_compat; lra).
    assert (Hpd : 0 < P * / (xn - 1)) by (apply Qmult_lt_0_compat; assumption).
    set (c := P * / (xn - 1)) in *.
    assert (Eb : b == c * (xn - xk)) by (rewrite Hv; unfold c; field; lra).
    assert (Eb' : b' == c * (xn - xk1)) by (rewrite Hv'; unfold c; field; lra).
    assert (EP : P == c * (xn - 1)) by (unfold c; field; lra).
    clearbody c.
    assert (A1 : 0 <= c * (xn - xk1)) by (apply Qmult_le_0_compat; lra).
    assert (A2 : 0 < c * (xk1 - xk)) by (apply Qmult_lt_0_compat; lra).
    assert (A3 : 0 <= c * (xk - 1)) by (apply Qmult_le_0_compat; lra).
    rewrite Eb, Eb'. split; [exact A1|]. split; lra.
Qed.

Lemma remaining_balance_amortises_witness :
  exists emi n r,
    calculate_emi 500000 10 5 = Ok (emi, n, r)
    /\ (exists b, remaining_balance 500000 r emi n = Ok b /\ b == 0)
    /\ forall k, (0 <= k < n)%Z ->
       exists b b',
         remaining_balance 500000 r emi k = Ok b
         /\ remaining_balance 500000 r emi (k + 1) = Ok b'
         /\ 0 <= b' /\ b' < b /\ b <= 500000.
Proof.
  apply (remaining_balance_amortises 500000 10 5); reflexivity.
Defined.

(** ** The EMI tab and the stress meter *)

(** For a positive rate the bound on the geometric sum is strict. *)
Lemma Qpower_growth_bound_strict r (k : nat) :
  0 < r ->
  (1 + r) ^ Z.of_nat (S k) - 1
  < inject_Z (Z.of_nat (S k)) * r * (1 + r) ^ Z.of_nat (S k).
Proof.
  intros Hr.
  pose proof (Qpower_growth_bound r k ltac:(lra)) as Hk.
  assert (Hge : 1 <= (1 + r) ^ Z.of_nat k) by (apply Qpower_1_le; [lra | lia]).
  rewrite Nat2Z.inj_succ, <- Z.add_1_r.
  rewrite Qpower_plus by lra.
  rewrite inject_Z_plus. change (inject_Z 1) with 1.
  change ((1 + r) ^ 1) with (1 + r).
  set (x := (1 + r) ^ Z.of_nat k) in *.
  set (m := inject_Z (Z.of_nat k)) in *.
  assert (Hm : 0 <= m)
    by (unfold m; change 0 with (inject_Z 0); rewrite <- Zle_Qle; lia).
  clearbody x m.
  assert (A1 : 0 <= (m * r * x - (x - 1)) * (1 + r))
    by (apply Qmult_le_0_compat; lra).
  assert (A2 : 0 <= r * (x - 1)) by (apply Qmult_le_0_compat; lra).
  assert (A3 : 0 < r * r * x)
    by (repeat apply Qmult_lt_0_compat; lra).
  lra.
Qed.

(** The EMI tab fails exactly when the loan amount is zero, on the ratio
    of the interest to the loan. *)
Theorem emi_tab_raises_iff loan_amount emi n :
  (raises (emi_tab loan_amount emi n) <-> loan_amount == 0)
  /\ forall e, emi_tab loan_amount emi n = Raise e -> e = ZeroDivisionError.
Proof.
  unfold emi_tab, raises.
  destruct (Qeq_dec loan_amount 0) as [H | H].
  - rewrite PyFacts.div_raise by exact H. cbn [bind]. split.
    + split; eauto.
    + intros e He. congruence.
  - rewrite PyFacts.div_ok by exact H. cbn [bind]. split.
    + split; [intros [e He]; discriminate | contradiction].
    + intros e He. discriminate.
Qed.

(** On a loan with a positive principal, a rate that is not negative and a
    positive tenure, the EMI tab is computed; the total payment is the
    instalment times the number of periods, the total interest is never
    negative, and it is zero exactly when the rate is zero, in which case
    the burden shown is the light one. *)
Theorem emi_tab_total_interest P rate years :
  0 < P -> 0 <= rate -> (0 < years)%Z ->
  exists emi n r lab,
    calculate_emi P rate years = Ok (emi, n, r)
    /\ emi_tab P emi n = Ok lab
    /\ total_payment lab == emi * inject_Z n
    /\ total_interest lab == emi * inject_Z n - P
    /\ 0 <= total_interest lab
    /\ (total_interest lab == 0 <-> rate == 0)
    /\ (rate == 0 -> interest_burden lab = LightBurden).
Proof.
  intros HP Hrate Hyears.
  destruct (calculate_emi_value P rate years Hrate Hyears)
    as [emi [Hemi [Hzero Hnz]]].
  exists emi, (years * 12)%Z, (Py.div_lit rate (Py.of_int (12 * 100))).
  unfold emi_tab. rewrite PyFacts.div_ok by lra. cbn [bind].
  eexists. split; [exact Hemi|]. split; [reflexivity|].
  cbn [total_payment total_interest interest_burden].
  assert (Htp : emi *! Py.of_int (years * 12) == emi * inject_Z (years * 12))
    by (py_norm; reflexivity).
  assert (Hti : emi *! Py.of_int (years * 12) -! P
                == emi * inject_Z (years * 12) - P)
    by (py_norm; reflexivity).
  split; [exact Htp|]. split; [exact Hti|].
  set (n := (years * 12)%Z) in *.
  assert (Hn : (0 < n)%Z) by (unfold n; lia).
  assert (HnQ : 0 < inject_Z n)
    by (change 0 with (inject_Z 0); rewrite <- Zlt_Qlt; exact Hn).
  cbn zeta in Hzero, Hnz.
  destruct (Qeq_dec (rate * (1 # 1200)) 0) as [Hr0 | Hr0].
  - assert (Hint : emi * inject_Z n - P == 0)
      by (rewrite (Hzero Hr0); field; lra).
    split; [rewrite Hti, Hint; apply Qle_refl|]. split.
    + split; [intros _; lra | intros _; rewrite Hti; exact Hint].
    + intros _.
      assert (Hratio : Qred ((emi *! Py.of_int n -! P) / P) == 0)
        by (rewrite Qred_correct, Hti, Hint; field; lra).
      assert (Hlt : Py.ltb (Qred ((emi *! Py.of_int n -! P) / P)) (3 # 10)
                    = true)
        by (unfold Py.ltb; apply PyFacts.gtb_true; rewrite Hratio; reflexivity).
      rewrite Hlt. reflexivity.
  - destruct (Hnz Hr0) as [Hgt Hval].
    assert (Hrate' : ~ rate == 0) by lra.
    assert (Hrpos : 0 < rate * (1 # 1200)) by lra.
    set (r := rate * (1 # 1200)) in *.
    assert (Hbound : (1 + r) ^ n - 1 < inject_Z n * r * (1 + r) ^ n).
    { rewrite <- (Z2Nat.id n) by lia.
      replace (Z.to_nat n) with (S (Z.to_nat n - 1)) by lia.
      apply Qpower_growth_bound_strict. exact Hrpos. }
    set (x := (1 + r) ^ n) in *. clearbody x.
    assert (Hd : 0 < / (x - 1)) by (apply Qinv_lt_0_compat; lra).
    assert (Hint : emi * inject_Z n - P
                   == P * ((inject_Z n * r * x - (x - 1)) * / (x - 1)))
      by (rewrite Hval; field; lra).
    assert (Hpos : 0 < P * ((inject_Z n * r * x - (x - 1)) * / (x - 1))).
    { apply Qmult_lt_0_compat; [exact HP|].
      apply Qmult_lt_0_compat; [lra | exact Hd]. }
    split; [rewrite Hti, Hint; lra|]. split.
    + rewrite Hti, Hint.
      split; [intros H; exfalso; lra | intros H; contradiction].
    + intros H. contradiction.
Qed.

Lemma emi_tab_total_interest_witness :
  exists emi n r lab,
    calculate_emi 500000 10 5 = Ok (emi, n, r)
    /\ emi_tab 500000 emi n = Ok lab
    /\ total_payment lab == emi * inject_Z n
    /\ total_interest lab == emi * inject_Z n - 500000
    /\ 0 <= total_interest lab
    /\ (total_interest lab == 0 <-> 10 == 0)
    /\ (10 == 0 -> interest_burden lab = LightBurden).
Proof.
  apply (emi_tab_total_interest 500000 10 5);
    [reflexivity | discriminate | reflexivity].
Defined.

(** The stress meter fails exactly on a zero salary.  For an instalment
    that is not negative, a higher salary never gives a higher ratio nor a
    worse band. *)
Theorem stress_meter_monotone emi salary salary' :
  0 <= emi -> 0 < salary -> salary <= salary' ->
  exists ratio band ratio' band',
    stress_meter emi salary = Ok (ratio, band)
    /\ stress_meter emi salary' = Ok (ratio', band')
    /\ ratio' <= ratio
    /\ (band = ComfortableZone -> band' = ComfortableZone)
    /\ (band' = FinancialStressLikely -> band = FinancialStressLikely).
Proof.
  intros Hemi Hs Hs'. unfold stress_meter.
  rewrite !PyFacts.div_ok by lra. cbn [bind].
  do 4 eexists. split; [reflexivity|]. split; [reflexivity|].
  assert (Hle : Qred (emi / salary') <= Qred (emi / salary)).
  { rewrite !Qred_correct.
    apply Qle_shift_div_l; [lra|].
    setoid_replace (emi / salary' * salary)
      with (emi * (salary * / salary')) by (field; lra).
    assert (Hq : salary * / salary' <= 1).
    { apply Qle_shift_div_r; lra. }
    assert (0 <= emi * (1 - salary * / salary'))
      by (apply Qmult_le_0_compat; lra).
    lra. }
  split; [exact Hle|].
  set (q := Qred (emi / salary)) in *. set (q' := Qred (emi / salary')) in *.
  unfold Py.ltb.
  destruct (Py.gtb (2 # 10) q) eqn:A; destruct (Py.gtb (2 # 10) q') eqn:A';
    destruct (Py.gtb (4 # 10) q) eqn:B; destruct (Py.gtb (4 # 10) q') eqn:B';
    split; try congruence; try discriminate;
    repeat match goal with
           | H : Py.gtb _ _ = true |- _ => apply PyFacts.gtb_true in H
           | H : Py.gtb _ _ = false |- _ => apply PyFacts.gtb_false in H
           end; intros _; exfalso; lra.
Qed.

Lemma stress_meter_monotone_witness :
  exists ratio band ratio' band',
    stress_meter 10000 30000 = Ok (ratio, band)
    /\ stress_meter 10000 80000 = Ok (ratio', band')
    /\ ratio' <= ratio
    /\ (band = ComfortableZone -> band' = ComfortableZone)
    /\ (band' = FinancialStressLikely -> band = FinancialStressLikely).
Proof.
  apply (stress_meter_monotone 10000 30000 80000);
    [discriminate | reflexivity | discriminate].
Defined.

(** ** More on the pay-down loop *)

Section LoopFacts.

Variables r emi extra_monthly : Q.

(** Every iteration adds one full payment to the total. *)
Lemma while_total_paid fuel : forall s,
  total_payment_with_prepay s == inject_Z (months s) * (emi + extra_monthly) ->
  total_payment_with_prepay
    (while fuel loop_cond (loop_body r emi extra_monthly) s)
  == inject_Z (months (while fuel loop_cond (loop_body r emi extra_monthly) s))
     * (emi + extra_monthly).
Proof.
  induction fuel as [| fuel IH]; intros s Hs; cbn [while]; [exact Hs|].
  destruct (loop_cond s); [|exact Hs].
  apply IH. unfold loop_body.
  cbn [total_payment_with_prepay months].
  rewrite inject_Z_plus. change (inject_Z 1) with 1.
  py_norm. rewrite Hs. ring.
Qed.

(** The result of the loop is the state after some number of iterations,
    and unless fuel ran out the condition is false there. *)
Lemma while_is_loop_after fuel : forall s,
  exists k, (k <= fuel)%nat
            /\ loop_after k r emi extra_monthly s
               = Some (while fuel loop_cond (loop_body r emi extra_monthly) s)
            /\ (loop_cond (while fuel loop_cond
                                 (loop_body r emi extra_monthly) s) = false
                \/ k = fuel).
Proof.
  induction fuel as [| fuel IH]; intros s; cbn [while].
  - exists 0%nat. split; [lia|]. split; [reflexivity | right; reflexivity].
  - destruct (loop_cond s) eqn:E.
    + destruct (IH (loop_body r emi extra_monthly s)) as [k [Hk [Hrun Hend]]].
      exists (S k). split; [lia|]. split.
      * rewrite loop_after_S, E. exact Hrun.
      * destruct Hend as [H | H]; [left; exact H | right; lia].
    + exists 0%nat. split; [lia|]. split; [reflexivity | left; exact E].
Qed.

Lemma loop_after_months : forall k s s',
  loop_after k r emi extra_monthly s = Some s' ->
  months s' = (months s + Z.of_nat k)%Z.
Proof.
  induction k as [| k IH]; intros s s' H.
  - cbn [loop_after] in H. inversion H. lia.
  - rewrite loop_after_S in H. destruct (loop_cond s); [|discriminate].
    rewrite (IH _ _ H). unfold loop_body. cbn [months]. lia.
Qed.

(** Before its last state the loop found its condition true. *)
Lemma loop_after_earlier : forall k s s',
  loop_after k r emi extra_monthly s = Some s' ->
  forall j, (j < k)%nat ->
  exists t, loop_after j r emi extra_monthly s = Some t
            /\ loop_cond t = true.
Proof.
  induction k as [| k IH]; intros s s' H j Hj; [lia|].
  rewrite loop_after_snoc in H.
  destruct (loop_after k r emi extra_monthly s) as [t |] eqn:Hk;
    [|discriminate].
  destruct (loop_cond t) eqn:E; [|discriminate].
  destruct (Nat.eq_dec j k) as [-> | Hne].
  - exists t. auto.
  - apply (IH s t Hk j). lia.
Qed.

End LoopFacts.

(** The final state of [payoff_loop]. *)
Lemma payoff_loop_final loan_amount r emi extra_monthly :
  exists k,
    loop_after k r emi extra_monthly (loop_init loan_amount)
    = Some (payoff_loop loan_amount r emi extra_monthly)
    /\ months (payoff_loop loan_amount r emi extra_monthly) = Z.of_nat k
    /\ loop_cond (payoff_loop loan_amount r emi extra_monthly) = false.
Proof.
  unfold payoff_loop.
  destruct (while_is_loop_after r emi extra_monthly 1000
                                (loop_init loan_amount))
    as [k [_ [Hrun _]]].
  exists k. split; [exact Hrun|]. split.
  - rewrite (loop_after_months _ _ _ _ _ _ Hrun). cbn [loop_init months]. lia.
  - apply while_exits. cbn [loop_init months]. lia.
Qed.

(** With a larger payment the balance is lower at every iteration. *)
Lemma loop_after_compare r emi extra_monthly extra_monthly' :
  0 <= 1 + r -> extra_monthly <= extra_monthly' ->
  forall k s s' t t',
    balance s' <= balance s ->
    loop_after k r emi extra_monthly s = Some t ->
    loop_after k r emi extra_monthly' s' = Some t' ->
    balance t' <= balance t.
Proof.
  intros Hr Hextra.
  induction k as [| k IH]; intros s s' t t' Hb Ht Ht'.
  - cbn [loop_after] in Ht, Ht'. inversion Ht; inversion Ht'; subst.
    exact Hb.
  - rewrite loop_after_S in Ht, Ht'.
    destruct (loop_cond s); [|discriminate].
    destruct (loop_cond s'); [|discriminate].
    refine (IH _ _ _ _ _ Ht Ht').
    unfold loop_body. cbn [balance]. py_norm.
    assert (0 <= (balance s - balance s') * (1 + r))
      by (apply Qmult_le_0_compat; lra).
    lra.
Qed.

(** The interest saved shown in the decision tab is the original total
    payment less the number of months of the loop times the full monthly
    payment: every month of the loop, the last one included, is counted
    as one instalment plus the extra payment.  The years saved are the
    months not used, over twelve, and the loop never takes more than 1000
    months. *)
Theorem prepay_vs_invest_interest_saved
        (loan_amount r emi : Q) (n : Z) (extra_monthly expected_return : Q)
        (recession_shock : bool) (d : decision) :
  prepay_vs_invest loan_amount r emi n extra_monthly expected_return
                   recession_shock = Ok d ->
  prepay_interest_saved d
  == emi * inject_Z n - inject_Z (loan_closes_in d) * (emi + extra_monthly)
  /\ years_saved d == inject_Z (n - loan_closes_in d) / 12
  /\ (0 <= loan_closes_in d <= 1000)%Z.
Proof.
  unfold prepay_vs_invest.
  destruct (future_value_monthly_sip _ _ _) as [v | e]; cbn [bind];
    [|discriminate].
  intros H. inversion H; subst d; clear H.
  cbn [prepay_interest_saved years_saved loan_closes_in].
  pose proof (while_total_paid r emi extra_monthly 1000 (loop_init loan_amount))
    as Htot.
  fold (payoff_loop loan_amount r emi extra_monthly) in Htot.
  split; [|split].
  - py_norm. rewrite Htot; [ring|].
    cbn [loop_init total_payment_with_prepay months]. reflexivity.
  - py_norm. reflexivity.
  - destruct (payoff_loop_final loan_amount r emi extra_monthly)
      as [k [_ [Hm _]]].
    destruct (payoff_loop_exit loan_amount r emi extra_monthly) as [Hle _].
    lia.
Qed.

Lemma prepay_vs_invest_interest_saved_witness :
  exists d,
    prepay_vs_invest 1000 (1 # 100) 400 3 10 12 false = Ok d
    /\ prepay_interest_saved d
       == 400 * inject_Z 3 - inject_Z (loan_closes_in d) * (400 + 10)
    /\ years_saved d == inject_Z (3 - loan_closes_in d) / 12
    /\ (0 <= loan_closes_in d <= 1000)%Z.
Proof.
  eexists. split.
  - vm_compute. reflexivity.
  - apply (prepay_vs_invest_interest_saved 1000 (1 # 100) 400 3 10 12 false).
    vm_compute. reflexivity.
Defined.

(** As long as the periodic rate is at least -1, a larger extra payment
    never lengthens the pay-off. *)
Theorem larger_extra_payment_never_slower
        loan_amount r emi extra_monthly extra_monthly' :
  0 <= 1 + r -> extra_monthly <= extra_monthly' ->
  (months (payoff_loop loan_amount r emi extra_monthly')
   <= months (payoff_loop loan_amount r emi extra_monthly))%Z.
Proof.
  intros Hr Hextra.
  destruct (payoff_loop_final loan_amount r emi extra_monthly)
    as [k [Hrun [Hm Hc]]].
  destruct (payoff_loop_final loan_amount r emi extra_monthly')
    as [k' [Hrun' [Hm' Hc']]].
  rewrite Hm, Hm'.
  destruct (le_lt_dec k' k) as [Hle | Hlt]; [lia|].
  exfalso.
  destruct (loop_after_earlier _ _ _ _ _ _ Hrun' k Hlt) as [t [Ht Hct]].
  assert (Hb : balance t
               <= balance (payoff_loop loan_amount r emi extra_monthly)).
  { apply (loop_after_compare r emi extra_monthly extra_monthly' Hr Hextra
                              k (loop_init loan_amount) (loop_init loan_amount)
                              _ _ (Qle_refl _) Hrun Ht). }
  assert (Hmt : months t = Z.of_nat k).
  { rewrite (loop_after_months _ _ _ _ _ _ Ht). cbn [loop_init months]. lia. }
  unfold loop_cond in Hc, Hct.
  apply andb_prop in Hct as [Hbt Hmt'].
  apply PyFacts.gtb_true in Hbt. rewrite Hmt in Hmt'.
  rewrite Hm, Hmt' in Hc. rewrite andb_true_r in Hc.
  apply PyFacts.gtb_false in Hc. lra.
Qed.

Lemma larger_extra_payment_never_slower_witness :
  (months (payoff_loop 1000 (1 # 100) 400 50)
   <= months (payoff_loop 1000 (1 # 100) 400 0))%Z.
Proof.
  apply (larger_extra_payment_never_slower 1000 (1 # 100) 400 0 50);
    discriminate.
Defined.



(** ** More on the prepayment tab *)

(** Whenever the prepayment tab reports an outcome, the months reduced and
    the new tenure add up to the months that were left, and the "interest
    saved" is exactly the instalment times the months reduced. *)
Theorem prepayment_lab_outcome
        ln loan_amount r emi n prepay_year prepay_amount m :
  prepayment_lab ln loan_amount r emi n prepay_year prepay_amount
  = Ok (Some m) ->
  (new_n m + months_saved m = n - prepay_year * 12)%Z
  /\ interest_saved m == emi * inject_Z (months_saved m).
Proof.
  unfold prepayment_lab.
  destruct (remaining_balance _ _ _ _) as [bb | e]; cbn [bind];
    [|discriminate].
  destruct (Py.gtb _ 0); [|discriminate].
  destruct (Py.div emi _) as [a | e]; cbn [bind]; [|discriminate].
  destruct (math_log ln a) as [la | e]; cbn [bind]; [|discriminate].
  destruct (math_log ln _) as [lb | e]; cbn [bind]; [|discriminate].
  destruct (Py.div la lb) as [q | e]; cbn [bind]; [|discriminate].
  intros H. inversion H; subst m; clear H.
  cbn [new_n months_saved interest_saved]. split; [lia|].
  py_norm. unfold Z.sub. rewrite !inject_Z_plus, !inject_Z_opp. ring.
Qed.

Lemma prepayment_lab_outcome_witness :
  exists m,
    prepayment_lab ln_approx 1000 (1 # 100) 400 3 0 100 = Ok (Some m)
    /\ (new_n m + months_saved m = 3 - 0 * 12)%Z
    /\ interest_saved m == 400 * inject_Z (months_saved m).
Proof.
  eexists. split.
  - vm_compute. reflexivity.
  - apply (prepayment_lab_outcome ln_approx 1000 (1 # 100) 400 3 0 100).
    vm_compute. reflexivity.
Defined.

(** On a loan with a positive principal, rate and tenure, after a number
    of years that is not negative and for a prepayment that is not
    negative, the instalment exceeds the interest on the new balance. *)
Lemma prepayment_covers_interest P rate years prepay_year prepay_amount :
  0 < P -> 0 < rate -> (0 < years)%Z ->
  (0 <= prepay_year)%Z -> 0 <= prepay_amount ->
  exists emi balance_before,
    calculate_emi P rate years
    = Ok (emi, (years * 12)%Z, Py.div_lit rate (Py.of_int (12 * 100)))
    /\ remaining_balance P (Py.div_lit rate (Py.of_int (12 * 100))) emi
                         (prepay_year * 12) = Ok balance_before
    /\ 0 < emi
    /\ 0 < emi - (balance_before - prepay_amount) * (rate * (1 # 1200)).
Proof.
  intros HP Hrate Hyears Hpy Hpa.
  destruct (remaining_balance_scheduled P rate years
                                        (Z.to_nat (prepay_year * 12))
                                        Hrate Hyears)
    as [emi [bb [Hemi [Hbb Hv]]]].
  rewrite Z2Nat.id in Hbb by lia.
  exists emi, bb. split; [exact Hemi|]. split; [exact Hbb|].
  destruct (calculate_emi_value P rate years ltac:(lra) Hyears)
    as [emi' [Hemi' [_ Hnz]]].
  rewrite Hemi in Hemi'. inversion Hemi'; subst emi'; clear Hemi'.
  destruct Hnz as [Hgt Hval]; [lra|].
  unfold scheduled_balance in Hv. rewrite !Z2Nat.id in Hv by lia.
  set (r := rate * (1 # 1200)) in *.
  assert (Hr : 0 < r) by (unfold r; lra).
  assert (Hk : 1 <= (1 + r) ^ (prepay_year * 12))
    by (apply Qpower_1_le; [lra | lia]).
  set (x := (1 + r) ^ (years * 12)) in *.
  set (y := (1 + r) ^ (prepay_year * 12)) in *. clearbody x y.
  assert (Hd : 0 < / (x - 1)) by (apply Qinv_lt_0_compat; lra).
  assert (Hc : 0 < P * r * / (x - 1)).
  { apply Qmult_lt_0_compat; [apply Qmult_lt_0_compat|]; assumption. }
  set (c := P * r * / (x - 1)) in *.
  assert (Eemi : emi == c * x) by (rewrite Hval; unfold c; field; lra).
  assert (Ebb : bb * r == c * (x - y)) by (rewrite Hv; unfold c; field; lra).
  clearbody c.
  assert (A1 : 0 < c * x) by (apply Qmult_lt_0_compat; lra).
  assert (A2 : 0 < c * y) by (apply Qmult_lt_0_compat; lra).
  assert (A3 : 0 <= prepay_amount * r) by (apply Qmult_le_0_compat; lra).
  split; [lra|].
  setoid_replace ((bb - prepay_amount) * r)
    with (bb * r - prepay_amount * r) by ring.
  lra.
Qed.

(** On such inputs the prepayment tab raises nothing: the logarithms are
    taken of positive numbers.  The one condition on [math.log] is that it
    does not vanish at [1 + r]. *)
Lemma prepayment_lab_returns
      ln P rate years prepay_year prepay_amount :
  0 < P -> 0 < rate -> (0 < years)%Z ->
  (0 <= prepay_year)%Z -> 0 <= prepay_amount ->
  ~ ln (1 +! Py.div_lit rate (Py.of_int (12 * 100))) == 0 ->
  exists emi,
    calculate_emi P rate years
    = Ok (emi, (years * 12)%Z, Py.div_lit rate (Py.of_int (12 * 100)))
    /\ returns (prepayment_lab ln P (Py.div_lit rate (Py.of_int (12 * 100)))
                               emi (years * 12) prepay_year prepay_amount).
Proof.
  intros HP Hrate Hyears Hpy Hpa Hln.
  destruct (prepayment_covers_interest P rate years prepay_year prepay_amount
                                       HP Hrate Hyears Hpy Hpa)
    as [emi [bb [Hemi [Hbb [Hepos Hcov]]]]].
  exists emi. split; [exact Hemi|].
  pose proof (periodic_rate_eq rate) as Hr.
  pose proof (one_plus_periodic_rate rate) as Hq.
  set (r := Py.div_lit rate (Py.of_int (12 * 100))) in *.
  unfold prepayment_lab, returns. rewrite Hbb. cbn [bind].
  destruct (Py.gtb (bb -! prepay_amount) 0); [|eauto].
  assert (Hden : emi -! (bb -! prepay_amount) *! r
                 == emi - (bb - prepay_amount) * (rate * (1 # 1200)))
    by (py_norm; rewrite Hr; reflexivity).
  rewrite PyFacts.div_ok by (rewrite Hden; lra). cbn [bind].
  unfold math_log.
  assert (Ha : Py.gtb (Qred (emi / (emi -! (bb -! prepay_amount) *! r))) 0
               = true).
  { apply PyFacts.gtb_true. rewrite Qred_correct, Hden.
    apply Qlt_shift_div_l; lra. }
  rewrite Ha. cbn [bind].
  assert (Hb : Py.gtb (1 +! r) 0 = true)
    by (apply PyFacts.gtb_true; rewrite Hq; lra).
  rewrite Hb. cbn [bind].
  rewrite PyFacts.div_ok by exact Hln. cbn [bind]. eauto.
Qed.

(** On a loan with a positive principal, rate and tenure, after a number
    of years that is not negative and for a prepayment that is not
    negative, the prepayment tab ends without an exception (with an
    outcome or with none), provided [math.log] does not vanish at
    [1 + r]. *)
Theorem prepayment_tab_safe_on_valid_input
        ln P rate years prepay_year prepay_amount :
  0 < P -> 0 < rate -> (0 < years)%Z ->
  (0 <= prepay_year)%Z -> 0 <= prepay_amount ->
  ~ ln (1 +! Py.div_lit rate (Py.of_int (12 * 100))) == 0 ->
  returns (prepayment_tab ln P rate years prepay_year prepay_amount).
Proof.
  intros HP Hrate Hyears Hpy Hpa Hln.
  destruct (prepayment_lab_returns ln P rate years prepay_year prepay_amount
                                   HP Hrate Hyears Hpy Hpa Hln)
    as [emi [Hemi Hret]].
  unfold prepayment_tab. rewrite Hemi. cbn [bind]. exact Hret.
Qed.

Lemma prepayment_tab_safe_on_valid_input_witness :
  returns (prepayment_tab ln_approx 500000 10 5 2 50000).
Proof.
  apply (prepayment_tab_safe_on_valid_input ln_approx 500000 10 5 2 50000);
    [ reflexivity | reflexivity | reflexivity | discriminate | discriminate
    | vm_compute; discriminate ].
Defined.

(** ** More on the case scenarios *)

Lemma mapM_length {A B : Type} (f : A -> result B) :
  forall l l', mapM f l = Ok l' -> length l' = length l.
Proof.
  induction l as [| a l IH]; intros l' H; cbn [mapM] in H.
  - inversion H. reflexivity.
  - destruct (f a) as [b | e]; cbn [bind] in H; [|discriminate].
    destruct (mapM f l) as [bs | e]; cbn [bind] in H; [|discriminate].
    inversion H. cbn [length]. rewrite (IH bs eq_refl). reflexivity.
Qed.

Lemma mapM_Forall {A B : Type} (f : A -> result B) (Q : B -> Prop) :
  forall l l', mapM f l = Ok l' ->
  (forall a b, f a = Ok b -> Q b) -> Forall Q l'.
Proof.
  induction l as [| a l IH]; intros l' H HQ; cbn [mapM] in H.
  - inversion H. constructor.
  - destruct (f a) as [b | e] eqn:Ea; cbn [bind] in H; [|discriminate].
    destruct (mapM f l) as [bs | e]; cbn [bind] in H; [|discriminate].
    inversion H. constructor; [exact (HQ a b Ea) | exact (IH bs eq_refl HQ)].
Qed.

(** Whenever the case scenarios are computed, the graph has one value per
    sampled rate (25), and the heatmap one row per sampled growth (12) and
    in each row one cell per sampled rate (12): the shapes that the plot
    and the table of the heatmap are given axes for. *)
Theorem case_scenarios_shape
        loan_amount interest_rate remaining_years rent discount_rate
        price_growth c :
  case_scenarios loan_amount interest_rate remaining_years rent discount_rate
                 price_growth = Ok c ->
  length (vals c) = 25%nat
  /\ length (heat c) = 12%nat
  /\ Forall (fun row => length row = 12%nat) (heat c).
Proof.
  intros Hc.
  destruct (case_scenarios_inv _ _ _ _ _ _ _ Hc) as [_ [Hvals Hheat]].
  split; [|split].
  - rewrite (mapM_length _ _ _ Hvals). reflexivity.
  - rewrite (mapM_length _ _ _ Hheat). reflexivity.
  - apply (mapM_Forall _ _ _ _ Hheat). intros g row Hrow.
    rewrite (mapM_length _ _ _ Hrow). reflexivity.
Qed.

(** The sweeps are computed exactly when the headline differential is:
    once lines 220-228 have gone through, no cell of the graph or of the
    heatmap can raise. *)
Theorem case_scenarios_returns_iff
        loan_amount interest_rate remaining_years rent discount_rate
        price_growth :
  returns (case_scenarios loan_amount interest_rate remaining_years rent
                          discount_rate price_growth)
  <-> returns (buy_vs_rent loan_amount interest_rate remaining_years rent
                           discount_rate price_growth).
Proof.
  split.
  - intros [c Hc].
    destruct (case_scenarios_inv _ _ _ _ _ _ _ Hc) as [Hd _].
    exists (diff c). exact Hd.
  - apply case_scenarios_returns.
Qed.

Lemma npv_stream_monotone payment payment' discount_rate months :
  0 <= discount_rate -> (0 <= months)%Z -> payment <= payment' ->
  exists v v',
    npv_stream payment discount_rate months = Ok v
    /\ npv_stream payment' discount_rate months = Ok v'
    /\ v <= v'.
Proof.
  intros Hd Hm Hp.
  assert (Hne : ~ discount_rate == - (1200)) by lra.
  destruct (npv_stream_value payment discount_rate months Hne)
    as [v [Hv [Hz Hn]]].
  destruct (npv_stream_value payment' discount_rate months Hne)
    as [v' [Hv' [Hz' Hn']]].
  exists v, v'. split; [exact Hv|]. split; [exact Hv'|].
  cbn zeta in *.
  assert (HmQ : 0 <= inject_Z months)
    by (change 0 with (inject_Z 0); rewrite <- Zle_Qle; exact Hm).
  destruct (Qeq_dec (discount_rate * (1 # 1200)) 0) as [Hr | Hr].
  - rewrite (Hz Hr), (Hz' Hr).
    apply Qmult_le_compat_r; assumption.
  - rewrite (Hn Hr), (Hn' Hr).
    assert (Hrpos : 0 < discount_rate * (1 # 1200)) by lra.
    set (r := discount_rate * (1 # 1200)) in *.
    assert (Hx : 1 <= (1 + r) ^ months)
      by (apply Qpower_1_le; [lra | exact Hm]).
    set (x := (1 + r) ^ months) in *. clearbody x. clearbody r.
    assert (Hix : / x <= 1) by (apply Qle_shift_inv_r; lra).
    assert (Hir : 0 < / r) by (apply Qinv_lt_0_compat; exact Hrpos).
    assert (Hf : 0 <= (1 - / x) * / r) by (apply Qmult_le_0_compat; lra).
    assert (Hg : 0 <= (payment' - payment) * ((1 - / x) * / r))
      by (apply Qmult_le_0_compat; lra).
    setoid_replace (payment * (1 - / x) / r)
      with (payment * ((1 - / x) * / r)) by (field; lra).
    setoid_replace (payment' * (1 - / x) / r)
      with (payment' * ((1 - / x) * / r)) by (field; lra).
    lra.
Qed.

(** At a discount rate that is not negative and for a positive tenure, a
    higher rent never raises the differential, and so never turns
    "buying wins" into "renting wins". *)
Theorem higher_rent_favours_buying
        loan_amount interest_rate remaining_years rent rent' discount_rate
        price_growth v :
  buy_vs_rent loan_amount interest_rate remaining_years rent discount_rate
              price_growth = Ok v ->
  0 <= discount_rate -> (0 < remaining_years)%Z -> rent <= rent' ->
  exists v',
    buy_vs_rent loan_amount interest_rate remaining_years rent' discount_rate
                price_growth = Ok v'
    /\ v' <= v
    /\ (case_verdict v = BuyingWins -> case_verdict v' = BuyingWins).
Proof.
  intros Hv Hd Hy Hrent. unfold buy_vs_rent in *.
  destruct (calculate_emi loan_amount interest_rate remaining_years)
    as [[[emi n] r] | e] eqn:E; cbn [bind] in *; [|discriminate].
  destruct (calculate_emi_shape _ _ _ _ _ _ E) as [-> _].
  destruct (npv_stream emi _ _) as [pv_buy | e]; cbn [bind] in *;
    [|discriminate].
  destruct (npv_stream_monotone rent rent' discount_rate
                                (remaining_years * 12) Hd ltac:(lia) Hrent)
    as [pv_rent [pv_rent' [H1 [H2 Hle]]]].
  rewrite H1 in Hv. rewrite H2. cbn [bind] in *.
  destruct (Py.pow _ _) as [gp | e]; cbn [bind] in *; [|discriminate].
  destruct (Py.pow _ _) as [dp | e]; cbn [bind] in *; [|discriminate].
  destruct (Py.div _ _) as [pv_resale | e]; cbn [bind] in *; [|discriminate].
  inversion Hv; subst v; clear Hv.
  eexists. split; [reflexivity|].
  assert (Hdiff : pv_buy -! pv_resale -! pv_rent'
                  <= pv_buy -! pv_resale -! pv_rent)
    by (py_norm; lra).
  split; [exact Hdiff|].
  unfold case_verdict, Py.ltb.
  destruct (Py.gtb 0 (pv_buy -! pv_resale -! pv_rent)) eqn:A;
    [|discriminate].
  intros _. apply PyFacts.gtb_true in A.
  assert (B : Py.gtb 0 (pv_buy -! pv_resale -! pv_rent') = true)
    by (apply PyFacts.gtb_true; lra).
  rewrite B. reflexivity.
Qed.

Lemma higher_rent_favours_buying_witness :
  exists v v',
    buy_vs_rent 120000 10 1 8000 8 3 = Ok v
    /\ buy_vs_rent 120000 10 1 9000 8 3 = Ok v'
    /\ v' <= v
    /\ (case_verdict v = BuyingWins -> case_verdict v' = BuyingWins).
Proof.
  eassert (Hv : buy_vs_rent 120000 10 1 8000 8 3 = Ok _)
    by (vm_compute; reflexivity).
  destruct (higher_rent_favours_buying 120000 10 1 8000 9000 8 3 _ Hv)
    as [v' [Hv' [Hle Hverdict]]];
    [discriminate | reflexivity | discriminate |].
  exact (ex_intro _ _ (ex_intro _ v' (conj Hv (conj Hv' (conj Hle Hverdict))))).
Defined.

Lemma rate_sweep_is_single_point_differential_witness :
  exists c,
    case_scenarios 500000 10 5 8000 8 3 = Ok c
    /\ buy_vs_rent 500000 10 5 8000 8 3 = Ok (diff c)
    /\ forall j rate,
        nth_error rates j = Some rate ->
        exists v,
          nth_error (vals c) j = Some v
          /\ buy_vs_rent 500000 rate 5 8000 8 3 = Ok v.
Proof.
  destruct (case_scenarios_returns 500000 10 5 8000 8 3) as [c Hc].
  { eexists. vm_compute. reflexivity. }
  exists c. split; [exact Hc|].
  exact (rate_sweep_is_single_point_differential _ _ _ _ _ _ _ Hc).
Defined.

Lemma case_scenarios_shape_witness :
  exists c,
    case_scenarios 500000 10 5 8000 8 3 = Ok c
    /\ length (vals c) = 25%nat
    /\ length (heat c) = 12%nat
    /\ Forall (fun row => length row = 12%nat) (heat c).
Proof.
  destruct (case_scenarios_returns 500000 10 5 8000 8 3) as [c Hc].
  { eexists. vm_compute. reflexivity. }
  exists c. split; [exact Hc|].
  exact (case_scenarios_shape _ _ _ _ _ _ _ Hc).
Defined.

(** ** The script as a whole *)






